(** * Decal placement and material-mode engine of the panel configurator

    A shallow embedding of [src/configurator.js].  The module-level
    variables of the script (scene, currentModel, frontPanelMesh, decalMesh,
    currentMode, currentFinish, activeTexture, decalMaterial) become the
    fields of one [State] record that every exported function transforms.

    Conventions of the embedding.
    - JavaScript numbers are idealised as exact rationals ([Q]); the decimal
      literals of the source are the same decimal literals here.
    - A property read on [undefined] raises a [TypeError]; an operation
      therefore returns a [Completion]: the state reached, tagged with
      whether the call returned or threw.  Writes made before the throw stay.
    - Objects created with [new] receive a fresh identity from a counter, so
      that [scene.remove] and [dispose] act on identities as in the script.
    - The three.js calls the script relies on are modelled by what they are
      documented to compute: [Box3.getCenter]/[getSize],
      [Vector3.normalize]/[transformDirection]; [Math.sqrt] is a parameter;
      the result of [Raycaster.intersectObject] on a mesh is a field of the
      mesh; [Object3D.lookAt] is kept symbolic.
    - [new DecalGeometry(mesh, ...)] reads the normal attribute of the
      geometry of the mesh and throws a [TypeError] when there is none;
      whether a mesh has it is a field of the mesh.
    - What the loader finds at a path is a parameter ([fetch]); the chain of
      load callbacks of [loadModel] is the recursion of [tryLoad], which ends
      because the index only grows towards the number of paths. *)

From Stdlib Require Import QArith String List Bool Lia Arith Lqa Recdef.
Import ListNotations.

Open Scope string_scope.
Open Scope Q_scope.

(** ** Numbers, colours and vectors *)

(** [THREE.Color]: three channels. *)
Record Color := mkColor { ch_r : Q; ch_g : Q; ch_b : Q }.

(** [new THREE.Color(0xffffff)] and [color.setHex(0xffffff)]. *)
Definition white : Color := mkColor 1 1 1.

(** [Color.multiplyScalar]. *)
Definition multiplyScalar (c : Color) (k : Q) : Color :=
  mkColor (ch_r c * k) (ch_g c * k) (ch_b c * k).

Record Vector3 := vec3 { vx : Q; vy : Q; vz : Q }.

Definition vadd (a b : Vector3) : Vector3 :=
  vec3 (vx a + vx b) (vy a + vy b) (vz a + vz b).

Definition vsub (a b : Vector3) : Vector3 :=
  vec3 (vx a - vx b) (vy a - vy b) (vz a - vz b).

Definition vscale (a : Vector3) (k : Q) : Vector3 :=
  vec3 (vx a * k) (vy a * k) (vz a * k).

(** Equality of vectors up to the equality of rationals. *)
Definition Veq (a b : Vector3) : Prop :=
  vx a == vx b /\ vy a == vy b /\ vz a == vz b.

(** The upper-left 3x3 block of a [Matrix4], by rows; the translation part
    plays no role in [transformDirection]. *)
Record Matrix3 := mat3 { row0 : Vector3; row1 : Vector3; row2 : Vector3 }.

Definition dot (a b : Vector3) : Q := vx a * vx b + vy a * vy b + vz a * vz b.

Definition applyMatrix3 (m : Matrix3) (v : Vector3) : Vector3 :=
  vec3 (dot (row0 m) v) (dot (row1 m) v) (dot (row2 m) v).

Definition identity3 : Matrix3 := mat3 (vec3 1 0 0) (vec3 0 1 0) (vec3 0 0 1).


(** [THREE.Box3]. *)
Record Box3 := mkBox { bmin : Vector3; bmax : Vector3 }.

Definition Qltb (a b : Q) : bool := negb (Qle_bool b a).

Definition isEmpty (b : Box3) : bool :=
  Qltb (vx (bmax b)) (vx (bmin b)) ||
  Qltb (vy (bmax b)) (vy (bmin b)) ||
  Qltb (vz (bmax b)) (vz (bmin b)).

Definition getCenter (b : Box3) : Vector3 :=
  if isEmpty b then vec3 0 0 0 else vscale (vadd (bmin b) (bmax b)) 0.5.

Definition getSize (b : Box3) : Vector3 :=
  if isEmpty b then vec3 0 0 0 else vsub (bmax b) (bmin b).

(** ** The finish preset table (lines 13-39) *)

Record BaseParams := mkBase {
  b_roughness : Q; b_metalness : Q; b_normalScale : Q }.

Record EngravedParams := mkEngraved {
  e_roughness : Q; e_metalness : Q; e_normalScale : Q; colorMult : Q }.

Record Preset := mkPreset {
  name : string; base : BaseParams; engraved : EngravedParams }.

Definition powder : Preset :=
  mkPreset "Powder-Coated Steel"
    (mkBase 0.55 0.85 1.0) (mkEngraved 0.68 0.78 1.12 1.0).
Definition raw : Preset :=
  mkPreset "Raw / Weathered Steel"
    (mkBase 0.65 0.80 1.0) (mkEngraved 0.78 0.70 1.15 0.9).
Definition corten : Preset :=
  mkPreset "Corten / Rusted Steel"
    (mkBase 0.75 0.65 1.0) (mkEngraved 0.88 0.55 1.18 1.0).
Definition brushed : Preset :=
  mkPreset "Brushed Stainless Steel"
    (mkBase 0.35 0.95 1.0) (mkEngraved 0.48 0.88 1.10 1.0).
Definition painted : Preset :=
  mkPreset "Painted / Matte Metal"
    (mkBase 0.70 0.60 1.0) (mkEngraved 0.82 0.52 1.10 1.0).

(** The own properties of the object literal, in source order. *)
Definition FINISH_PRESETS : list (string * Preset) :=
  [ ("powder", powder); ("raw", raw); ("corten", corten);
    ("brushed", brushed); ("painted", painted) ].

Fixpoint assoc {A : Type} (k : string) (l : list (string * A)) : option A :=
  match l with
  | [] => None
  | (k', v) :: l' => if String.eqb k k' then Some v else assoc k l'
  end.

(** [FINISH_PRESETS] is an ordinary object literal, so a property read that
    finds no own property continues in [Object.prototype].  These are the
    names defined there; every one of them holds a function or an object,
    hence a truthy value that has no [base] and no [engraved] property. *)
Definition OBJECT_PROTOTYPE : list string :=
  [ "constructor"; "__proto__"; "hasOwnProperty"; "isPrototypeOf";
    "propertyIsEnumerable"; "toLocaleString"; "toString"; "valueOf";
    "__defineGetter__"; "__defineSetter__";
    "__lookupGetter__"; "__lookupSetter__" ].

Definition mem (k : string) (l : list string) : bool :=
  existsb (String.eqb k) l.

(** The value of a property read [FINISH_PRESETS[k]]. *)
Inductive Property :=
| OwnPreset (p : Preset)
| Inherited
| Undefined.

Definition getPreset (k : string) : Property :=
  match assoc k FINISH_PRESETS with
  | Some p => OwnPreset p
  | None => if mem k OBJECT_PROTOTYPE then Inherited else Undefined
  end.

(** Truthiness of such a value, as tested by [!x] and [x || y]. *)
Definition truthy (v : Property) : bool :=
  match v with Undefined => false | _ => true end.

(** [v.base] and [v.engraved]: [None] stands for [undefined]. *)
Definition getBase (v : Property) : option BaseParams :=
  match v with OwnPreset p => Some (base p) | _ => None end.

Definition getEngraved (v : Property) : option EngravedParams :=
  match v with OwnPreset p => Some (engraved p) | _ => None end.

(** ** Scene objects *)

(** [THREE.CanvasTexture] built by [updateTexture] (lines 214-216);
    [image] is the source canvas handed in, [None] when it was [null]. *)
Record Texture := mkTexture {
  tex_id : nat; image : option nat; colorSpace : string; flipY : bool }.

(** The material of the panel mesh. [normalScale] is absent on materials
    that have no such property. *)
Record Material := mkMaterial {
  material_id : nat;
  color : Color;
  roughness : Q;
  metalness : Q;
  normalScale : option (Q * Q) }.

(** One entry of the array returned by [intersectObject]. *)
Record Intersection := mkHit { point : Vector3; face_normal : Vector3 }.

(** A mesh of the loaded model.  [intersections origin direction] is what
    [raycaster.intersectObject(mesh, false)] returns for that ray, nearest
    hit first; [boundingBox] is [new Box3().setFromObject(mesh)];
    [hasNormals] tells whether the geometry carries the normal attribute
    that [new DecalGeometry(mesh, ...)] reads for every vertex: without it
    the constructor throws a [TypeError]. *)
Record Mesh := mkMesh {
  mesh_name : string;
  geometry_id : nat;
  material : option Material;
  boundingBox : Box3;
  matrixWorld : Matrix3;
  intersections : Vector3 -> Vector3 -> list Intersection;
  hasNormals : bool }.

Record Model := mkModel { model_id : nat; children : list Mesh }.

(** [new THREE.Euler()] or the rotation of the helper after [lookAt]. *)
Inductive Euler :=
| EulerZero
| EulerLookAt (eye target : Vector3).

(** [new DecalGeometry(mesh, position, orientation, size)]. *)
Record DecalGeometry := mkDecalGeometry {
  decal_geometry_id : nat;
  projected_on : nat;
  decal_position : Vector3;
  decal_orientation : Euler;
  decal_size : Vector3 }.

(** [new THREE.Mesh(geometry, decalMaterial)]; the material is the shared
    [decalMaterial] of the state, not a copy. *)
Record DecalMesh := mkDecalMesh { decal_id : nat; geometry : DecalGeometry }.

(** The shared decal material (lines 43-51), with the fields the script
    writes. *)
Record DecalMaterial := mkDecalMaterial {
  map : option Texture;
  alphaMap : option Texture;
  dm_color : Color;
  dm_roughness : Q;
  dm_metalness : Q;
  needsUpdate : bool }.

Inductive SceneObject :=
| ModelNode (id : nat)
| DecalNode (id : nat).

(** The geometries [dispose] is called on: those of the loaded meshes,
    numbered by the loader, and those of the decals, numbered here. *)
Inductive GeometryRef :=
| OfMesh (id : nat)
| OfDecal (id : nat).

Definition sameObject (a b : SceneObject) : bool :=
  match a, b with
  | ModelNode i, ModelNode j => Nat.eqb i j
  | DecalNode i, DecalNode j => Nat.eqb i j
  | _, _ => false
  end.

(** [scene.remove(o)]: drops the object of that identity, if attached. *)
Definition sceneRemove (o : SceneObject) (l : list SceneObject) : list SceneObject :=
  filter (fun x => negb (sameObject x o)) l.

(** [scene.add(o)]: an object that is already attached is moved to the end. *)
Definition sceneAdd (o : SceneObject) (l : list SceneObject) : list SceneObject :=
  sceneRemove o l ++ [o].

(** ** Module state (lines 6-11, 43-51, 206) *)

Record State := mkState {
  scene : list SceneObject;
  currentModel : option Model;
  frontPanelMesh : option Mesh;
  decalMesh : option DecalMesh;
  currentMode : string;
  currentFinish : string;
  activeTexture : option Texture;
  decalMaterial : DecalMaterial;
  (* bookkeeping of [new], [dispose] and [console.warn]; the script never
     calls [dispose] on a texture, so nothing writes [disposedTextures] *)
  nextId : nat;
  allocatedTextures : list nat;
  allocatedGeometries : list nat;
  disposedGeometries : list GeometryRef;
  disposedMaterials : list nat;
  disposedTextures : list nat;
  warnings : list string }.

Definition set_scene v s :=
  mkState v (currentModel s) (frontPanelMesh s) (decalMesh s) (currentMode s)
    (currentFinish s) (activeTexture s) (decalMaterial s) (nextId s)
    (allocatedTextures s) (allocatedGeometries s) (disposedGeometries s)
    (disposedMaterials s) (disposedTextures s) (warnings s).
Definition set_currentModel v s :=
  mkState (scene s) v (frontPanelMesh s) (decalMesh s) (currentMode s)
    (currentFinish s) (activeTexture s) (decalMaterial s) (nextId s)
    (allocatedTextures s) (allocatedGeometries s) (disposedGeometries s)
    (disposedMaterials s) (disposedTextures s) (warnings s).
Definition set_frontPanelMesh v s :=
  mkState (scene s) (currentModel s) v (decalMesh s) (currentMode s)
    (currentFinish s) (activeTexture s) (decalMaterial s) (nextId s)
    (allocatedTextures s) (allocatedGeometries s) (disposedGeometries s)
    (disposedMaterials s) (disposedTextures s) (warnings s).
Definition set_decalMesh v s :=
  mkState (scene s) (currentModel s) (frontPanelMesh s) v (currentMode s)
    (currentFinish s) (activeTexture s) (decalMaterial s) (nextId s)
    (allocatedTextures s) (allocatedGeometries s) (disposedGeometries s)
    (disposedMaterials s) (disposedTextures s) (warnings s).
Definition set_currentMode v s :=
  mkState (scene s) (currentModel s) (frontPanelMesh s) (decalMesh s) v
    (currentFinish s) (activeTexture s) (decalMaterial s) (nextId s)
    (allocatedTextures s) (allocatedGeometries s) (disposedGeometries s)
    (disposedMaterials s) (disposedTextures s) (warnings s).
Definition set_currentFinish v s :=
  mkState (scene s) (currentModel s) (frontPanelMesh s) (decalMesh s)
    (currentMode s) v (activeTexture s) (decalMaterial s) (nextId s)
    (allocatedTextures s) (allocatedGeometries s) (disposedGeometries s)
    (disposedMaterials s) (disposedTextures s) (warnings s).
Definition set_activeTexture v s :=
  mkState (scene s) (currentModel s) (frontPanelMesh s) (decalMesh s)
    (currentMode s) (currentFinish s) v (decalMaterial s) (nextId s)
    (allocatedTextures s) (allocatedGeometries s) (disposedGeometries s)
    (disposedMaterials s) (disposedTextures s) (warnings s).
Definition set_decalMaterial v s :=
  mkState (scene s) (currentModel s) (frontPanelMesh s) (decalMesh s)
    (currentMode s) (currentFinish s) (activeTexture s) v (nextId s)
    (allocatedTextures s) (allocatedGeometries s) (disposedGeometries s)
    (disposedMaterials s) (disposedTextures s) (warnings s).
Definition set_nextId v s :=
  mkState (scene s) (currentModel s) (frontPanelMesh s) (decalMesh s)
    (currentMode s) (currentFinish s) (activeTexture s) (decalMaterial s) v
    (allocatedTextures s) (allocatedGeometries s) (disposedGeometries s)
    (disposedMaterials s) (disposedTextures s) (warnings s).
Definition set_allocatedTextures v s :=
  mkState (scene s) (currentModel s) (frontPanelMesh s) (decalMesh s)
    (currentMode s) (currentFinish s) (activeTexture s) (decalMaterial s)
    (nextId s) v (allocatedGeometries s) (disposedGeometries s)
    (disposedMaterials s) (disposedTextures s) (warnings s).
Definition set_allocatedGeometries v s :=
  mkState (scene s) (currentModel s) (frontPanelMesh s) (decalMesh s)
    (currentMode s) (currentFinish s) (activeTexture s) (decalMaterial s)
    (nextId s) (allocatedTextures s) v (disposedGeometries s)
    (disposedMaterials s) (disposedTextures s) (warnings s).
Definition set_disposedGeometries v s :=
  mkState (scene s) (currentModel s) (frontPanelMesh s) (decalMesh s)
    (currentMode s) (currentFinish s) (activeTexture s) (decalMaterial s)
    (nextId s) (allocatedTextures s) (allocatedGeometries s) v
    (disposedMaterials s) (disposedTextures s) (warnings s).
Definition set_disposedMaterials v s :=
  mkState (scene s) (currentModel s) (frontPanelMesh s) (decalMesh s)
    (currentMode s) (currentFinish s) (activeTexture s) (decalMaterial s)
    (nextId s) (allocatedTextures s) (allocatedGeometries s)
    (disposedGeometries s) v (disposedTextures s) (warnings s).
Definition set_warnings v s :=
  mkState (scene s) (currentModel s) (frontPanelMesh s) (decalMesh s)
    (currentMode s) (currentFinish s) (activeTexture s) (decalMaterial s)
    (nextId s) (allocatedTextures s) (allocatedGeometries s)
    (disposedGeometries s) (disposedMaterials s) (disposedTextures s) v.

(** The state once the script is loaded and [init] has run: a
    [MeshStandardMaterial] starts with roughness 1 and metalness 0. *)
Definition initialState : State :=
  mkState [] None None None "printed" "powder" None
    (mkDecalMaterial None None white 1 0 false)
    0%nat [] [] [] [] [] [].

(** How a call ends: it returns, or a [TypeError] escapes it.  Either way
    the writes made so far are in the state carried. *)
Inductive Completion :=
| Returns (s : State)
| Throws (s : State).

Definition stateOf (c : Completion) : State :=
  match c with Returns s => s | Throws s => s end.

Definition threw (c : Completion) : bool :=
  match c with Returns _ => false | Throws _ => true end.

(** Sequencing of statements: what follows a throw does not run. *)
Definition andThen (c : Completion) (k : State -> Completion) : Completion :=
  match c with Returns s => k s | Throws s => Throws s end.

Notation "c >>= k" := (andThen c k) (at level 50, left associativity).

(** ** Decal lifecycle: [removeDecals] (lines 197-203) *)

Definition removeDecals (s : State) : State :=
  match decalMesh s with
  | Some d =>
      let s1 := set_scene (sceneRemove (DecalNode (decal_id d)) (scene s)) s in
      let s2 := set_disposedGeometries
                  (OfDecal (decal_geometry_id (geometry d)) :: disposedGeometries s1)
                  s1 in
      set_decalMesh None s2
  | None => s
  end.

(** ** Material mode controller: [applyMaterialMode] (lines 315-357) *)

Definition baseColorOf (s : State) : Color :=
  match frontPanelMesh s with
  | Some m => match material m with Some bm => color bm | None => white end
  | None => white
  end.

(** [FINISH_PRESETS[currentFinish] || FINISH_PRESETS['powder']]. *)
Definition finishPreset (s : State) : Property :=
  if truthy (getPreset (currentFinish s)) then getPreset (currentFinish s)
  else getPreset "powder".

(** [p.colorMult && p.colorMult !== 1.0]. *)
Definition darkens (k : Q) : bool := negb (Qeq_bool k 0) && negb (Qeq_bool k 1.0).

Definition applyMaterialMode (texture : Texture) (s : State) : Completion :=
  let baseColor := baseColorOf s in
  let fp := finishPreset s in
  let dm := decalMaterial s in
  if String.eqb (currentMode s) "engraved" then
    (* map, alphaMap and color are written before p.colorMult is read *)
    let dm1 := mkDecalMaterial None (Some texture) baseColor
                 (dm_roughness dm) (dm_metalness dm) true in
    match getEngraved fp with
    | None => Throws (set_decalMaterial dm1 s)
    | Some p =>
        let c := if darkens (colorMult p)
                 then multiplyScalar baseColor (colorMult p) else baseColor in
        Returns (set_decalMaterial
                   (mkDecalMaterial None (Some texture) c
                      (e_roughness p) (e_metalness p) true) s)
    end
  else
    Returns (set_decalMaterial
               (mkDecalMaterial (Some texture) None white 0.4 0.0 true) s).

(** ** [setMode] (lines 308-313) and [setFinish] (lines 286-306) *)

(** [if (decalMesh && activeTexture) applyMaterialMode(activeTexture)]. *)
Definition reapply (s : State) : Completion :=
  match decalMesh s, activeTexture s with
  | Some _, Some t => applyMaterialMode t s
  | _, _ => Returns s
  end.

Definition setMode (mode : string) (s : State) : Completion :=
  reapply (set_currentMode mode s).

(** The update of the panel material in [setFinish]; [preset] is
    [FINISH_PRESETS[currentFinish].base]. *)
Definition updateBaseMaterial (preset : BaseParams) (bm : Material) : Material :=
  mkMaterial (material_id bm) (color bm) (b_roughness preset) (b_metalness preset)
    (match normalScale bm with
     | Some _ => Some (b_normalScale preset, b_normalScale preset)
     | None => None
     end).

Definition withMaterial (bm : Material) (m : Mesh) : Mesh :=
  mkMesh (mesh_name m) (geometry_id m) (Some bm) (boundingBox m)
    (matrixWorld m) (intersections m) (hasNormals m).

Definition setFinish (finishId : string) (s : State) : Completion :=
  if negb (truthy (getPreset finishId)) then Returns s else
  let s1 := set_currentFinish finishId s in
  let panel :=
    match frontPanelMesh s1 with
    | Some m =>
        match material m with
        | Some bm =>
            match getBase (getPreset (currentFinish s1)) with
            | Some preset =>
                Returns (set_frontPanelMesh
                           (Some (withMaterial (updateBaseMaterial preset bm) m)) s1)
            | None => Throws s1
            end
        | None => Returns s1
        end
    | None => Returns s1
    end in
  panel >>= reapply.

(** ** Surface locator and [updateTexture] (lines 208-284) *)

Section Placement.

(** [Math.sqrt], used by [Vector3.length]. *)
Variable Math_sqrt : Q -> Q.

(** [Vector3.normalize]: [divideScalar(length() || 1)]. *)
Definition normalize (v : Vector3) : Vector3 :=
  let len := Math_sqrt (dot v v) in
  vscale v (/ (if Qeq_bool len 0 then 1 else len)).

(** [Vector3.transformDirection(m)]: the 3x3 block applied, then normalised. *)
Definition transformDirection (m : Matrix3) (v : Vector3) : Vector3 :=
  normalize (applyMatrix3 m v).

(** What lines 223-274 compute for the decal. *)
Record Frame := mkFrame {
  position : Vector3;
  orientation : Euler;
  decalSize : Vector3;
  warned : bool }.

Definition offsetCenter (m : Mesh) : Vector3 :=
  let center := getCenter (boundingBox m) in
  let size := getSize (boundingBox m) in
  vadd center (vec3 (vx size * 0.50) (vy size * 0.25) 0).

Definition rayOrigin (m : Mesh) : Vector3 :=
  vadd (offsetCenter m) (vec3 0 0 (vz (getSize (boundingBox m)))).

Definition rayDirection (m : Mesh) : Vector3 :=
  normalize (vsub (getCenter (boundingBox m)) (rayOrigin m)).

Definition locate (m : Mesh) : Frame :=
  let size := getSize (boundingBox m) in
  let position0 := offsetCenter m in
  let dsize := vec3 (vx size * 0.5915) (vy size * 0.845) 0.2 in
  match intersections m (rayOrigin m) (rayDirection m) with
  | hit :: _ =>
      let n := normalize (transformDirection (matrixWorld m) (face_normal hit)) in
      mkFrame (point hit) (EulerLookAt (point hit) (vadd (point hit) n)) dsize false
  | [] =>
      mkFrame (vec3 (vx position0) (vy position0) (vz position0 + vz size / 2))
        EulerZero dsize true
  end.

(** The direction along which a frame projects: the local +Z axis, which a
    zero rotation leaves on the world +Z axis and which [lookAt] turns
    towards its target. *)
Definition frameNormal (e : Euler) : Vector3 :=
  match e with
  | EulerZero => vec3 0 0 1
  | EulerLookAt eye target => vsub target eye
  end.

Definition FALLBACK_WARNING : string :=
  "Decal raycast failed, falling back to offset placement".

Definition updateTexture (sourceCanvas : option nat) (s : State) : Completion :=
  match frontPanelMesh s with
  | None => Returns s
  | Some m =>
      let s1 := removeDecals s in
      let texture := mkTexture (nextId s1) sourceCanvas "srgb" true in
      let s2 := set_allocatedTextures (tex_id texture :: allocatedTextures s1)
                  (set_nextId (S (nextId s1)) s1) in
      let s3 := set_activeTexture (Some texture) s2 in
      let f := locate m in
      let s4 := if warned f
                then set_warnings (warnings s3 ++ [FALLBACK_WARNING]) s3 else s3 in
      applyMaterialMode texture s4 >>= fun s5 =>
      (* new DecalGeometry(frontPanelMesh, ...) reads the normals *)
      if negb (hasNormals m) then Throws s5 else
      let g := mkDecalGeometry (nextId s5) (geometry_id m)
                 (position f) (orientation f) (decalSize f) in
      let s6 := set_allocatedGeometries
                  (decal_geometry_id g :: allocatedGeometries s5)
                  (set_nextId (S (nextId s5)) s5) in
      let d := mkDecalMesh (nextId s6) g in
      let s7 := set_nextId (S (nextId s6)) s6 in
      Returns (set_scene (sceneAdd (DecalNode (decal_id d)) (scene s7))
                 (set_decalMesh (Some d) s7))
  end.

(** ** Model reload (lines 118-195) *)

(** The synchronous part of [loadModel]: the previous model is torn down;
    loading itself finishes later, in [onModelLoaded]. *)
Definition loadModel (modelKey : string) (s : State) : Completion :=
  match currentModel s with
  | Some cm =>
      let s1 := set_scene (sceneRemove (ModelNode (model_id cm)) (scene s)) s in
      let s2 := set_disposedGeometries
                  (List.map (fun c => OfMesh (geometry_id c)) (children cm)
                     ++ disposedGeometries s1) s1 in
      let mats := flat_map (fun c => match material c with
                                     | Some bm => [material_id bm]
                                     | None => []
                                     end) (children cm) in
      let s3 := set_disposedMaterials (mats ++ disposedMaterials s2) s2 in
      Returns (removeDecals (set_frontPanelMesh None (set_currentModel None s3)))
  | None => Returns s
  end.

(** [String.prototype.includes]. *)
Fixpoint includes (s sub : string) : bool :=
  String.prefix sub s ||
  match s with
  | EmptyString => false
  | String _ s' => includes s' sub
  end.

Definition looksLikePanel (c : Mesh) : bool :=
  includes (mesh_name c) "Front" || includes (mesh_name c) "Panel" ||
  includes (mesh_name c) "Body".

(** The success callback of the loader (lines 153-186); [children gltf] are
    the meshes of the loaded scene in traversal order. *)
Definition onModelLoaded (gltf : Model) (s : State) : Completion :=
  let s1 := set_scene (sceneAdd (ModelNode (model_id gltf)) (scene s))
              (set_currentModel (Some gltf) s) in
  let s2 := match frontPanelMesh s1 with
            | Some _ => s1
            | None => set_frontPanelMesh (find looksLikePanel (children gltf)) s1
            end in
  let s3 := match frontPanelMesh s2 with
            | Some _ => s2
            | None => set_frontPanelMesh (hd_error (children gltf)) s2
            end in
  Returns s3.

(** ** Events *)

(** The calls the page and the loader make, one per event-handling turn. *)
Inductive Event :=
| SetMode (mode : string)
| SetFinish (finishId : string)
| UpdateTexture (sourceCanvas : option nat)
| LoadModel (modelKey : string)
| ModelLoaded (gltf : Model).

Definition dispatch (e : Event) (s : State) : Completion :=
  match e with
  | SetMode mode => setMode mode s
  | SetFinish finishId => setFinish finishId s
  | UpdateTexture c => updateTexture c s
  | LoadModel k => loadModel k s
  | ModelLoaded gltf => onModelLoaded gltf s
  end.

(** Events are handled one after the other; an exception ends the turn it
    was raised in, and the next event finds the state as that turn left it. *)
Fixpoint run (es : list Event) (s : State) : State :=
  match es with
  | [] => s
  | e :: es' => run es' (stateOf (dispatch e s))
  end.

(** The states the script can be in. *)
Inductive reachable : State -> Prop :=
| reachable_init : reachable initialState
| reachable_step e s : reachable s -> reachable (stateOf (dispatch e s)).

End Placement.

(** * Vocabulary of the properties *)

(** Equality of colours up to the equality of rationals. *)
Definition Ceq (a b : Color) : Prop :=
  ch_r a == ch_r b /\ ch_g a == ch_g b /\ ch_b a == ch_b b.

(** The panel is resolved and carries the material [bm]. *)
Definition panelMaterialOf (s : State) (bm : Material) : Prop :=
  exists m, frontPanelMesh s = Some m /\ material m = Some bm.

(** ** Sample objects, used to run the script on concrete inputs *)

(** A square root that is exact on squares of rationals. *)
Definition exactSqrt (q : Q) : Q := Z.sqrt (Qnum q) # Pos.sqrt (Qden q).

Definition sampleMaterial : Material :=
  mkMaterial 1 (mkColor 0.5 0.5 0.5) 0.5 0.5 (Some (1, 1)).

Definition sampleBox : Box3 := mkBox (vec3 0 0 0) (vec3 2 2 2).

(** A panel the ray of the locator misses. *)
Definition missedPanel : Mesh :=
  mkMesh "FrontPanel" 10 (Some sampleMaterial) sampleBox identity3
    (fun _ _ => []) true.


Definition sampleTexture : Texture := mkTexture 0 (Some 7%nat) "srgb" true.

(** The events that load [m] as the only mesh of a model, select a finish
    and a mode, and apply a first texture. *)
Definition loading (m : Mesh) : list Event := [ModelLoaded (mkModel 1 [m])].

Definition selecting (finishId mode : string) (m : Mesh) : list Event :=
  loading m ++ [SetFinish finishId; SetMode mode].

Definition decorating (m : Mesh) : list Event :=
  loading m ++ [UpdateTexture (Some 7%nat)].

(** The states these events lead to from the initial one, evaluated. *)
Definition loadedState : State :=
  Eval vm_compute in run exactSqrt (loading missedPanel) initialState.

Definition rawEngravedState : State :=
  Eval vm_compute in
    run exactSqrt (selecting "raw" "engraved" missedPanel) initialState.


Definition decoratedState : State :=
  Eval vm_compute in run exactSqrt (decorating missedPanel) initialState.

(** What a complete run of [applyMaterialMode] writes to the decal
    material, for a mode, a preset of the table, a texture and the colour
    of the panel. *)
Definition configured (mode : string) (p : Preset) (t : Texture) (baseColor : Color)
  : DecalMaterial :=
  if String.eqb mode "engraved" then
    mkDecalMaterial None (Some t)
      (if darkens (colorMult (engraved p))
       then multiplyScalar baseColor (colorMult (engraved p)) else baseColor)
      (e_roughness (engraved p)) (e_metalness (engraved p)) true
  else mkDecalMaterial (Some t) None white 0.4 0.0 true.

(** The part of the state that decides whether the material is reapplied
    and with what: the decal, the texture and the colour of the panel. *)
Definition sameDecalInputs (s s' : State) : Prop :=
  decalMesh s' = decalMesh s /\
  activeTexture s' = activeTexture s /\
  baseColorOf s' = baseColorOf s /\
  (decalMesh s = None \/ activeTexture s = None ->
   decalMaterial s' = decalMaterial s).

(** No call of the sequence throws, so that it runs the same whether the
    calls are separate turns or statements of one script. *)
Fixpoint completes (sqrt : Q -> Q) (es : list Event) (s : State) : bool :=
  match es with
  | [] => true
  | e :: es' =>
      negb (threw (dispatch sqrt e s)) &&
      completes sqrt es' (stateOf (dispatch sqrt e s))
  end.

(** A decal exists only while a panel is resolved. *)
Definition decalNeedsPanel (s : State) : Prop :=
  frontPanelMesh s = None -> decalMesh s = None.

(** The material controller runs to its end in [s]: it is not about to
    read the engraved parameters of a value that has none. *)
Definition controllerCompletes (s : State) : Prop :=
  currentMode s <> "engraved" \/ getEngraved (finishPreset s) <> None.

(** *** Resources of the decal lifecycle *)

Definition isDecalNode (o : SceneObject) : bool :=
  match o with DecalNode _ => true | ModelNode _ => false end.

(** The decal meshes attached to the scene. *)
Definition decalsAttached (s : State) : list SceneObject :=
  filter isDecalNode (scene s).

(** The node of the active decal, if there is one. *)
Definition activeDecalNode (s : State) : list SceneObject :=
  match decalMesh s with
  | Some d => [DecalNode (decal_id d)]
  | None => []
  end.

(** The decal geometry numbered [g] is the one of the active decal. *)
Definition activeGeometry (s : State) (g : nat) : Prop :=
  exists d, decalMesh s = Some d /\ decal_geometry_id (geometry d) = g.

Definition disposed (s : State) (g : nat) : Prop :=
  In (OfDecal g) (disposedGeometries s).

(** The places of the state that hold a texture. *)
Definition materialTexture (s : State) (t : Texture) : Prop :=
  map (decalMaterial s) = Some t \/ alphaMap (decalMaterial s) = Some t.

Definition referencedTexture (s : State) (t : Texture) : Prop :=
  activeTexture s = Some t \/ materialTexture s t.

Record lifecycleInvariant (s : State) : Prop := mkLifecycle {
  inv_attached : decalsAttached s = activeDecalNode s;
  inv_retired : forall g, In g (allocatedGeometries s) ->
                          activeGeometry s g \/ disposed s g;
  inv_live : forall g, activeGeometry s g -> ~ disposed s g;
  inv_known : forall g, activeGeometry s g \/ disposed s g ->
                        In g (allocatedGeometries s);
  inv_geometry_ids : forall g, In g (allocatedGeometries s) -> (g < nextId s)%nat;
  inv_latest : forall t, referencedTexture s t ->
                         hd_error (allocatedTextures s) = Some (tex_id t);
  inv_texture_ids : forall i, In i (allocatedTextures s) -> (i < nextId s)%nat;
  inv_distinct : NoDup (allocatedTextures s) }.

(** ** The loading chain of [loadModel] (lines 136-194) *)

(** [modelKey === 'radiant' ? 'Radiant3D.glb' : 'Bloom3D.glb']. *)
Definition fileNameFor (modelKey : string) : string :=
  if String.eqb modelKey "radiant" then "Radiant3D.glb" else "Bloom3D.glb".

(** The paths to try, in the order of the array literal. *)
Definition candidatePaths (fileName : string) : list string :=
  [ "./public/models/" ++ fileName; "/models/" ++ fileName; "models/" ++ fileName ].

(** What one [loadModel] call leaves on the console, and the scene it
    hands to the success callback, with the path it came from. *)
Record LoadLog := mkLoadLog {
  loadedFrom : option (string * Model);
  consoleWarn : list string;
  consoleError : list string }.

Section Loading.

(** What [loader.load] finds at a path: a scene, or nothing (the error
    callback runs). *)
Variable fetch : string -> option Model.
Variable paths : list string.
Variable fileName : string.

(** [tryLoad(index)]: past the end of [paths] it reports the failure; at a
    path that loads it stops; at one that fails it warns and tries the next. *)
Function tryLoad (index : nat)
  {measure (fun i => (length paths - i)%nat) index} : LoadLog :=
  if (length paths <=? index)%nat then
    mkLoadLog None [] ["All model paths failed for: " ++ fileName]
  else
    match fetch (nth index paths "") with
    | Some gltf => mkLoadLog (Some (nth index paths "", gltf)) [] []
    | None =>
        let r := tryLoad (S index) in
        mkLoadLog (loadedFrom r)
          (("Failed to load model from " ++ nth index paths ""
              ++ ", trying next path...") :: consoleWarn r)
          (consoleError r)
    end.
Proof.
  intros index Hgt _; apply Nat.leb_gt in Hgt; lia.
Defined.

End Loading.

(** The warning left for a path that failed. *)
Definition failedPath (path : string) : string :=
  "Failed to load model from " ++ path ++ ", trying next path...".

(** The mesh a freshly loaded scene offers as the panel: the first one with
    a telling name, else the first one. *)
Definition panelOf (gltf : Model) : option Mesh :=
  match find looksLikePanel (children gltf) with
  | Some c => Some c
  | None => hd_error (children gltf)
  end.

(** [loadModel(modelKey)] as a whole: the console of the loading chain that
    starts at index 0. *)
Definition loadLog (fetch : string -> option Model) (modelKey : string) : LoadLog :=
  tryLoad fetch (candidatePaths (fileNameFor modelKey)) (fileNameFor modelKey) 0.

(** A reload during which no other event arrives: the teardown, then the
    success callback for the scene the chain found, if it found one. *)
Definition reloaded (fetch : string -> option Model) (modelKey : string) (s : State)
  : State :=
  let s1 := stateOf (loadModel modelKey s) in
  match loadedFrom (loadLog fetch modelKey) with
  | Some (_, gltf) => stateOf (onModelLoaded gltf s1)
  | None => s1
  end.

(** The auto-centring of lines 158-162: [position += position - center],
    on each axis. *)
Definition autoCenter (position center : Vector3) : Vector3 :=
  vadd position (vsub position center).

(** ** Further vocabulary *)

(** [sub] occurs in [s]. *)
Definition occursIn (sub s : string) : Prop :=
  exists pre post, s = pre ++ sub ++ post.

(** A point lies in a box, faces included. *)
Definition insideBox (b : Box3) (v : Vector3) : Prop :=
  vx (bmin b) <= vx v <= vx (bmax b) /\
  vy (bmin b) <= vy v <= vy (bmax b) /\
  vz (bmin b) <= vz v <= vz (bmax b).

(** Facts that hold of every state the script reaches. *)
Record wellFormed (s : State) : Prop := mkWellFormed {
  wf_finish : truthy (getPreset (currentFinish s)) = true;
  wf_texture : decalMesh s <> None -> activeTexture s <> None;
  wf_target : forall d, decalMesh s = Some d ->
                exists m, frontPanelMesh s = Some m /\
                          projected_on (geometry d) = geometry_id m;
  wf_channels : forall t, activeTexture s = Some t ->
                  (map (decalMaterial s) = Some t /\ alphaMap (decalMaterial s) = None) \/
                  (map (decalMaterial s) = None /\ alphaMap (decalMaterial s) = Some t);
  wf_no_texture : activeTexture s = None ->
                  map (decalMaterial s) = None /\ alphaMap (decalMaterial s) = None;
  wf_model : currentModel s = None -> frontPanelMesh s = None }.


(** A sample server that has the model only under the second path. *)
Definition sampleFetch (path : string) : option Model :=
  if String.eqb path "/models/Bloom3D.glb" then Some (mkModel 1 [missedPanel])
  else None.

(** * Properties *)

(** ** The preset table and property reads *)

Lemma Ceq_refl c : Ceq c c.
Proof. repeat split; reflexivity. Qed.

Lemma own_presets id f :
  assoc id FINISH_PRESETS = Some f ->
  In f [powder; raw; corten; brushed; painted].
Proof.
  unfold FINISH_PRESETS; simpl.
  repeat (destruct (String.eqb id _);
          [ intros E; injection E as <-; simpl; tauto | ]).
  discriminate.
Qed.

Lemma own_is_truthy id f :
  assoc id FINISH_PRESETS = Some f -> getPreset id = OwnPreset f.
Proof. intros E; unfold getPreset; rewrite E; reflexivity. Qed.

Lemma finishPreset_own s f :
  assoc (currentFinish s) FINISH_PRESETS = Some f ->
  finishPreset s = OwnPreset f.
Proof.
  intros E; unfold finishPreset.
  rewrite (own_is_truthy _ _ E); reflexivity.
Qed.

(** No shipped preset has a zero multiplier, so the truthiness test of
    [p.colorMult && ...] never hides a multiplication. *)
Lemma colorMult_nonzero id f :
  assoc id FINISH_PRESETS = Some f -> ~ colorMult (engraved f) == 0.
Proof.
  intros E; apply own_presets in E; simpl in E.
  decompose [or] E; subst; try contradiction; discriminate.
Qed.

(** Skipping the multiplication when the factor is 1.0 changes nothing. *)
Lemma darkens_is_scaling c k :
  ~ k == 0 ->
  Ceq (if darkens k then multiplyScalar c k else c) (multiplyScalar c k).
Proof.
  intros Hk; unfold darkens.
  destruct (Qeq_bool k 0) eqn:E0.
  - apply Qeq_bool_iff in E0; contradiction.
  - simpl. destruct (Qeq_bool k 1.0) eqn:E1; simpl.
    + apply Qeq_bool_iff in E1.
      unfold multiplyScalar; repeat split; simpl; rewrite E1; ring.
    + apply Ceq_refl.
Qed.

(** ** Material mode controller *)

Lemma baseColorOf_panel s bm : panelMaterialOf s bm -> baseColorOf s = color bm.
Proof. intros (m & Hm & Hbm); unfold baseColorOf; rewrite Hm, Hbm; reflexivity. Qed.

(** C1: in printed mode the controller sets map to the texture, alphaMap
    to null, the colour to white (1, 1, 1), roughness 0.4 and metalness
    0.0; in engraved mode, under a preset [f] of the table, it sets map to
    null, alphaMap to the texture, every channel of the colour to that
    channel of the panel colour times the multiplier of [f], and roughness
    and metalness to those of [f]; after every apply exactly one of map
    and alphaMap is null. *)
Theorem C1_applyMaterialMode_channels :
  forall (s : State) (t : Texture) (f : Preset) (bm : Material),
    assoc (currentFinish s) FINISH_PRESETS = Some f ->
    panelMaterialOf s bm ->
    (currentMode s = "printed" ->
     exists s', applyMaterialMode t s = Returns s' /\
       map (decalMaterial s') = Some t /\
       alphaMap (decalMaterial s') = None /\
       dm_color (decalMaterial s') = mkColor 1 1 1 /\
       dm_roughness (decalMaterial s') = 0.4 /\
       dm_metalness (decalMaterial s') = 0.0) /\
    (currentMode s = "engraved" ->
     exists s', applyMaterialMode t s = Returns s' /\
       map (decalMaterial s') = None /\
       alphaMap (decalMaterial s') = Some t /\
       ch_r (dm_color (decalMaterial s'))
         == ch_r (color bm) * colorMult (engraved f) /\
       ch_g (dm_color (decalMaterial s'))
         == ch_g (color bm) * colorMult (engraved f) /\
       ch_b (dm_color (decalMaterial s'))
         == ch_b (color bm) * colorMult (engraved f) /\
       dm_roughness (decalMaterial s') = e_roughness (engraved f) /\
       dm_metalness (decalMaterial s') = e_metalness (engraved f)) /\
    (let dm := decalMaterial (stateOf (applyMaterialMode t s)) in
     (map dm = None /\ alphaMap dm <> None) \/
     (map dm <> None /\ alphaMap dm = None)).
Proof.
  intros s t f bm Hf Hbm.
  pose proof (finishPreset_own _ _ Hf) as Hfp.
  pose proof (baseColorOf_panel _ _ Hbm) as Hc.
  unfold applyMaterialMode; rewrite Hfp, Hc; simpl.
  split; [ | split ].
  - intros Hm; rewrite Hm; simpl.
    eexists; split; [ reflexivity | simpl; repeat split ].
  - intros Hm; rewrite Hm; simpl.
    eexists; split; [ reflexivity | simpl ].
    destruct (darkens_is_scaling (color bm) (colorMult (engraved f))
                (colorMult_nonzero _ _ Hf)) as (Hr & Hg & Hb).
    repeat (split; [ first [ reflexivity | assumption ] | ]); reflexivity.
  - destruct (String.eqb (currentMode s) "engraved"); simpl.
    + left; split; [ reflexivity | discriminate ].
    + right; split; [ discriminate | reflexivity ].
Qed.

Lemma C1_applyMaterialMode_channels_witness :
  let s := rawEngravedState in
  exists s', applyMaterialMode sampleTexture s = Returns s' /\
    map (decalMaterial s') = None /\
    alphaMap (decalMaterial s') = Some sampleTexture /\
    ch_r (dm_color (decalMaterial s')) == 0.45 /\
    ch_g (dm_color (decalMaterial s')) == 0.45 /\
    ch_b (dm_color (decalMaterial s')) == 0.45 /\
    dm_roughness (decalMaterial s') = 0.78 /\
    dm_metalness (decalMaterial s') = 0.70.
Proof.
  intros s.
  assert (Hp : panelMaterialOf s (updateBaseMaterial (base raw) sampleMaterial)).
  { eexists; split; reflexivity. }
  destruct (C1_applyMaterialMode_channels s sampleTexture raw _ eq_refl Hp)
    as (_ & He & _).
  destruct (He eq_refl) as (s' & Hs' & Hmap & Halpha & Hr & Hg & Hb & Hro & Hme).
  exists s'; split; [ exact Hs' | ].
  split; [ exact Hmap | ]. split; [ exact Halpha | ].
  split; [ rewrite Hr; reflexivity | ].
  split; [ rewrite Hg; reflexivity | ].
  split; [ rewrite Hb; reflexivity | ].
  split; [ exact Hro | exact Hme ].
Defined.





(** ** Mode and finish selection *)

Lemma applyMaterialMode_frame t s :
  let s' := stateOf (applyMaterialMode t s) in
  s' = set_decalMaterial (decalMaterial s') s.
Proof.
  unfold applyMaterialMode.
  destruct (String.eqb (currentMode s) "engraved"); [ | reflexivity ].
  destruct (getEngraved (finishPreset s)); reflexivity.
Qed.

Lemma reapply_frame s :
  let s' := stateOf (reapply s) in
  s' = set_decalMaterial (decalMaterial s') s.
Proof.
  unfold reapply.
  destruct (decalMesh s); [ | destruct s; reflexivity ].
  destruct (activeTexture s); [ apply applyMaterialMode_frame | ].
  destruct s; reflexivity.
Qed.

(** Outside engraved mode the controller ignores the finish. *)
Lemma applyMaterialMode_not_engraved t s :
  currentMode s <> "engraved" ->
  applyMaterialMode t s =
  Returns (set_decalMaterial (mkDecalMaterial (Some t) None white 0.4 0.0 true) s).
Proof.
  intros Hm; unfold applyMaterialMode.
  destruct (String.eqb_spec (currentMode s) "engraved"); [ contradiction | ].
  reflexivity.
Qed.

(** C10: [setMode] stores whatever it is given, and every mode other than
    'engraved' configures the decal material as printed mode does, while
    the value given stays stored as the current mode. *)
Theorem C10_setMode_unvalidated :
  forall (s : State) (mode : string),
    mode <> "engraved" ->
    currentMode (stateOf (setMode mode s)) = mode /\
    threw (setMode mode s) = false /\
    decalMaterial (stateOf (setMode mode s))
      = decalMaterial (stateOf (setMode "printed" s)) /\
    (forall d t, decalMesh s = Some d -> activeTexture s = Some t ->
       decalMaterial (stateOf (setMode mode s))
         = mkDecalMaterial (Some t) None white 0.4 0.0 true).
Proof.
  intros s mode Hm; unfold setMode.
  split.
  { rewrite (reapply_frame (set_currentMode mode s)); reflexivity. }
  unfold reapply; simpl.
  destruct (decalMesh s) as [d|]; [ | repeat split; intros; discriminate ].
  destruct (activeTexture s) as [t|]; [ | repeat split; intros; discriminate ].
  rewrite (applyMaterialMode_not_engraved t (set_currentMode mode s)) by exact Hm.
  rewrite (applyMaterialMode_not_engraved t (set_currentMode "printed" s))
    by discriminate.
  repeat split.
  intros d' t' _ E; injection E as <-; reflexivity.
Qed.

Lemma C10_setMode_unvalidated_witness :
  currentMode (stateOf (setMode "embossed" decoratedState)) = "embossed" /\
  map (decalMaterial (stateOf (setMode "embossed" decoratedState)))
    = activeTexture decoratedState.
Proof.
  assert (Hm : "embossed" <> "engraved") by discriminate.
  destruct (C10_setMode_unvalidated decoratedState "embossed" Hm)
    as (Hmode & _ & _ & Hdm).
  split; [ exact Hmode | ].
  rewrite (Hdm _ _ eq_refl eq_refl); reflexivity.
Defined.

Lemma setFinish_keeps_mode finishId s :
  currentMode (stateOf (setFinish finishId s)) = currentMode s.
Proof.
  unfold setFinish.
  destruct (truthy (getPreset finishId)); simpl; [ | reflexivity ].
  destruct (frontPanelMesh s) as [m|]; simpl.
  - destruct (material m); simpl.
    + destruct (getBase (getPreset finishId)); simpl; [ | reflexivity ].
      match goal with |- context [reapply ?x] => rewrite (reapply_frame x) end.
      reflexivity.
    + match goal with |- context [reapply ?x] => rewrite (reapply_frame x) end.
      reflexivity.
  - match goal with |- context [reapply ?x] => rewrite (reapply_frame x) end.
    reflexivity.
Qed.

Lemma setMode_keeps_finish mode s :
  currentFinish (stateOf (setMode mode s)) = currentFinish s.
Proof.
  unfold setMode.
  rewrite (reapply_frame (set_currentMode mode s)); reflexivity.
Qed.

Lemma sameDecalInputs_trans s1 s2 s3 :
  sameDecalInputs s1 s2 -> sameDecalInputs s2 s3 -> sameDecalInputs s1 s3.
Proof.
  intros (Hd & Ht & Hc & Hm) (Hd' & Ht' & Hc' & Hm').
  repeat split; try congruence.
  intros H; rewrite Hm'.
  - apply Hm, H.
  - rewrite Hd, Ht; exact H.
Qed.

Lemma reapply_sameDecalInputs s : sameDecalInputs s (stateOf (reapply s)).
Proof.
  rewrite (reapply_frame s); repeat split.
  unfold reapply; intros [H | H]; rewrite H; [ reflexivity | ].
  destruct (decalMesh s); reflexivity.
Qed.

Lemma setMode_sameDecalInputs mode s : sameDecalInputs s (stateOf (setMode mode s)).
Proof. apply (reapply_sameDecalInputs (set_currentMode mode s)). Qed.

Lemma setMode_stores mode s : currentMode (stateOf (setMode mode s)) = mode.
Proof.
  unfold setMode; rewrite (reapply_frame (set_currentMode mode s)); reflexivity.
Qed.

Lemma setFinish_sameDecalInputs finishId s :
  sameDecalInputs s (stateOf (setFinish finishId s)).
Proof.
  unfold setFinish.
  destruct (truthy (getPreset finishId)); simpl;
    [ | repeat split; reflexivity ].
  destruct (frontPanelMesh s) as [m|] eqn:Hm; simpl.
  - destruct (material m) as [bm|] eqn:Hbm; simpl.
    + destruct (getBase (getPreset finishId)); simpl;
        [ | repeat split; reflexivity ].
      eapply sameDecalInputs_trans; [ | apply reapply_sameDecalInputs ].
      repeat split; unfold baseColorOf; simpl; rewrite Hm, Hbm; reflexivity.
    + eapply sameDecalInputs_trans; [ | apply reapply_sameDecalInputs ].
      repeat split.
  - eapply sameDecalInputs_trans; [ | apply reapply_sameDecalInputs ].
    repeat split.
Qed.

(** Under a finish of the table the controller always runs to its end. *)
Lemma applyMaterialMode_own t s p :
  assoc (currentFinish s) FINISH_PRESETS = Some p ->
  applyMaterialMode t s =
  Returns (set_decalMaterial (configured (currentMode s) p t (baseColorOf s)) s).
Proof.
  intros Hp; unfold applyMaterialMode, configured.
  rewrite (finishPreset_own _ _ Hp); simpl.
  destruct (String.eqb (currentMode s) "engraved"); reflexivity.
Qed.

(** The decal material left by the selection of a finish of the table. *)
Lemma setFinish_own_material F p s :
  assoc F FINISH_PRESETS = Some p ->
  decalMaterial (stateOf (setFinish F s)) =
  match decalMesh s, activeTexture s with
  | Some _, Some t => configured (currentMode s) p t (baseColorOf s)
  | _, _ => decalMaterial s
  end.
Proof.
  intros HF; unfold setFinish.
  rewrite (own_is_truthy _ _ HF); simpl.
  rewrite (own_is_truthy _ _ HF); simpl.
  destruct (frontPanelMesh s) as [m|] eqn:Hm; simpl;
    [ destruct (material m) as [bm|] eqn:Hbm; simpl | ];
    unfold reapply; simpl;
    destruct (decalMesh s), (activeTexture s); simpl; try reflexivity;
    (erewrite applyMaterialMode_own by exact HF);
    unfold baseColorOf; simpl; rewrite ?Hm; simpl; rewrite ?Hbm; reflexivity.
Qed.

(** With a finish of the table stored, no call of [setMode] throws. *)
Lemma setMode_returns mode s p :
  assoc (currentFinish s) FINISH_PRESETS = Some p ->
  threw (setMode mode s) = false.
Proof.
  intros Hp; unfold setMode, reapply; simpl.
  destruct (decalMesh s); [ | reflexivity ].
  destruct (activeTexture s) as [t|]; [ | reflexivity ].
  rewrite (applyMaterialMode_own t (set_currentMode mode s) p Hp); reflexivity.
Qed.

(** Selecting a finish of the table never throws, and stores it. *)
Lemma setFinish_returns F p s :
  assoc F FINISH_PRESETS = Some p ->
  threw (setFinish F s) = false /\ currentFinish (stateOf (setFinish F s)) = F.
Proof.
  intros HF; unfold setFinish.
  rewrite (own_is_truthy _ _ HF); simpl.
  rewrite (own_is_truthy _ _ HF); simpl.
  destruct (frontPanelMesh s) as [m|]; simpl;
    [ destruct (material m) as [bm|]; simpl | ];
    unfold reapply; simpl;
    destruct (decalMesh s), (activeTexture s); simpl; try (split; reflexivity);
    (erewrite applyMaterialMode_own by exact HF); split; reflexivity.
Qed.

(** C5: selecting a finish leaves the stored mode alone, selecting a mode
    leaves the stored finish alone, and for a finish [F] of the table the
    events setMode(A), setFinish(F), setMode(B), setFinish(F) leave the
    decal material as setMode(B), setFinish(F) do; when the finish stored
    at the start is one of the table as well, none of these calls throws. *)
Theorem C5_mode_and_finish_independent :
  forall (sqrt : Q -> Q) (s : State),
    (forall finishId, currentMode (stateOf (setFinish finishId s)) = currentMode s) /\
    (forall mode, currentFinish (stateOf (setMode mode s)) = currentFinish s) /\
    (forall (A B F : string) (p : Preset),
       assoc F FINISH_PRESETS = Some p ->
       decalMaterial (run sqrt [SetMode A; SetFinish F; SetMode B; SetFinish F] s)
         = decalMaterial (run sqrt [SetMode B; SetFinish F] s) /\
       (forall p0, assoc (currentFinish s) FINISH_PRESETS = Some p0 ->
          completes sqrt [SetMode A; SetFinish F; SetMode B; SetFinish F] s = true /\
          completes sqrt [SetMode B; SetFinish F] s = true)).
Proof.
  intros sqrt s.
  split; [ intros; apply setFinish_keeps_mode | ].
  split; [ intros; apply setMode_keeps_finish | ].
  intros A B F p HF; split.
  - cbn [run dispatch].
    rewrite !(setFinish_own_material F p) by exact HF.
    rewrite !setMode_stores.
    set (s1 := stateOf (setMode B (stateOf (setFinish F (stateOf (setMode A s)))))).
    set (s2 := stateOf (setMode B s)).
    assert (H1 : sameDecalInputs s s1).
    { eapply sameDecalInputs_trans; [ apply (setMode_sameDecalInputs A) | ].
      eapply sameDecalInputs_trans; [ apply (setFinish_sameDecalInputs F) | ].
      apply setMode_sameDecalInputs. }
    assert (H2 : sameDecalInputs s s2) by apply setMode_sameDecalInputs.
    destruct H1 as (Hd1 & Ht1 & Hc1 & Hm1), H2 as (Hd2 & Ht2 & Hc2 & Hm2).
    rewrite Hd1, Ht1, Hc1, Hd2, Ht2, Hc2.
    destruct (decalMesh s) as [d|];
      [ destruct (activeTexture s) as [t|]; [ reflexivity | ] | ];
      rewrite Hm1, Hm2; auto.
  - intros p0 H0.
    assert (Hmode : forall mode x q,
              assoc (currentFinish x) FINISH_PRESETS = Some q ->
              threw (setMode mode x) = false /\
              assoc (currentFinish (stateOf (setMode mode x))) FINISH_PRESETS = Some q).
    { intros mode x q Hq; split; [ apply (setMode_returns mode x q Hq) | ].
      rewrite setMode_keeps_finish; exact Hq. }
    assert (Hfin : forall x,
              threw (setFinish F x) = false /\
              assoc (currentFinish (stateOf (setFinish F x))) FINISH_PRESETS = Some p).
    { intros x; destruct (setFinish_returns F p x HF) as (Ht & ->); auto. }
    cbn [completes dispatch].
    destruct (Hmode A s p0 H0) as (-> & HA).
    destruct (Hfin (stateOf (setMode A s))) as (-> & HAF).
    destruct (Hmode B _ p HAF) as (-> & HAFB).
    destruct (Hfin (stateOf (setMode B (stateOf (setFinish F (stateOf (setMode A s)))))))
      as (-> & _).
    destruct (Hmode B s p0 H0) as (-> & HB).
    destruct (Hfin (stateOf (setMode B s))) as (-> & _).
    split; reflexivity.
Qed.

Lemma C5_mode_and_finish_independent_witness :
  decalMaterial
    (run exactSqrt
       [SetMode "printed"; SetFinish "raw"; SetMode "engraved"; SetFinish "raw"]
       decoratedState)
  = decalMaterial
      (run exactSqrt [SetMode "engraved"; SetFinish "raw"] decoratedState) /\
  completes exactSqrt
    [SetMode "printed"; SetFinish "raw"; SetMode "engraved"; SetFinish "raw"]
    decoratedState = true.
Proof.
  destruct (C5_mode_and_finish_independent exactSqrt decoratedState)
    as (_ & _ & H).
  destruct (H "printed" "engraved" "raw" raw eq_refl) as (Hdm & Hc).
  split; [ exact Hdm | ].
  exact (proj1 (Hc powder eq_refl)).
Defined.

(** An identifier for which the property read gives [undefined] is
    ignored: the call returns and the state is the one it found. *)
Lemma setFinish_undefined_ignored finishId s :
  getPreset finishId = Undefined -> setFinish finishId s = Returns s.
Proof. intros H; unfold setFinish; rewrite H; reflexivity. Qed.

(** C6, at the failing input: 'constructor' is no key of the preset table,
    yet the property read finds [Object.prototype.constructor], the guard
    of [setFinish] lets it through, the stored finish is overwritten, and
    reading [roughness] on the missing [base] throws. *)
Theorem C6_setFinish_prototype_key :
  assoc "constructor" FINISH_PRESETS = None /\
  frontPanelMesh loadedState = Some missedPanel /\
  setFinish "constructor" loadedState
    = Throws (set_currentFinish "constructor" loadedState) /\
  currentFinish loadedState = "powder" /\
  currentFinish (stateOf (setFinish "constructor" loadedState)) = "constructor".
Proof. repeat split. Qed.

(** ** States without a target mesh *)

Lemma removeDecals_clears s : decalMesh (removeDecals s) = None.
Proof. unfold removeDecals; destruct (decalMesh s) eqn:E; [ reflexivity | exact E ]. Qed.

Lemma removeDecals_keeps_panel s :
  frontPanelMesh (removeDecals s) = frontPanelMesh s.
Proof. unfold removeDecals; destruct (decalMesh s); reflexivity. Qed.

Lemma setFinish_keeps_panel_presence finishId s :
  frontPanelMesh (stateOf (setFinish finishId s)) = None ->
  frontPanelMesh s = None.
Proof.
  unfold setFinish.
  destruct (truthy (getPreset finishId)); simpl; [ | trivial ].
  destruct (frontPanelMesh s) as [m|] eqn:Hm; simpl; [ | trivial ].
  destruct (material m); simpl.
  - destruct (getBase (getPreset finishId)); simpl.
    + match goal with |- context [reapply ?x] => rewrite (reapply_frame x) end.
      simpl; discriminate.
    + rewrite Hm; trivial.
  - match goal with |- context [reapply ?x] => rewrite (reapply_frame x) end.
    simpl; rewrite Hm; trivial.
Qed.

Lemma updateTexture_keeps_panel sqrt c s :
  frontPanelMesh (stateOf (updateTexture sqrt c s)) = frontPanelMesh s.
Proof.
  unfold updateTexture.
  destruct (frontPanelMesh s) as [m|] eqn:Hm; [ | exact Hm ].
  match goal with |- context [applyMaterialMode ?t ?x] =>
    pose proof (applyMaterialMode_frame t x) as Hf;
    destruct (applyMaterialMode t x) as [s5|s5]
  end; destruct (hasNormals m); simpl in *; rewrite Hf; simpl;
    destruct (warned (locate sqrt m)); simpl;
    rewrite removeDecals_keeps_panel; exact Hm.
Qed.

Lemma decalNeedsPanel_step sqrt e s :
  decalNeedsPanel s -> decalNeedsPanel (stateOf (dispatch sqrt e s)).
Proof.
  unfold decalNeedsPanel; intros Inv; destruct e as [mode|fid|c|k|gltf]; simpl.
  - unfold setMode; rewrite (reapply_frame (set_currentMode mode s)); exact Inv.
  - intros H; apply setFinish_keeps_panel_presence in H.
    destruct (setFinish_sameDecalInputs fid s) as (Hd & _).
    rewrite Hd; auto.
  - rewrite updateTexture_keeps_panel; intros H.
    unfold updateTexture; rewrite H; auto.
  - unfold loadModel; destruct (currentModel s); simpl; [ | exact Inv ].
    intros _; apply removeDecals_clears.
  - unfold onModelLoaded; simpl.
    destruct (frontPanelMesh s) eqn:Hm; simpl.
    + rewrite Hm; simpl; rewrite Hm; discriminate.
    + intros _; destruct (find looksLikePanel (children gltf)); simpl; auto.
Qed.

Lemma reachable_decalNeedsPanel sqrt s : reachable sqrt s -> decalNeedsPanel s.
Proof.
  induction 1; [ intros _; reflexivity | apply decalNeedsPanel_step; assumption ].
Qed.

Lemma run_reachable sqrt es :
  forall s, reachable sqrt s -> reachable sqrt (run sqrt es s).
Proof.
  induction es as [|e es IH]; intros s Hs; simpl; [ exact Hs | ].
  apply IH, reachable_step, Hs.
Qed.

Lemma decoratedState_reachable : reachable exactSqrt decoratedState.
Proof.
  assert (E : decoratedState
              = run exactSqrt (decorating missedPanel) initialState)
    by (vm_compute; reflexivity).
  rewrite E; apply run_reachable, reachable_init.
Qed.

(** C8 (as amended): while no target mesh is resolved, [updateTexture]
    changes nothing; [setMode] stores the mode and [setFinish] stores a
    finish identifier that passes its guard, and they change nothing
    else; none of the three throws. *)
Theorem C8_without_target_mesh :
  forall (sqrt : Q -> Q) (s : State),
    reachable sqrt s ->
    frontPanelMesh s = None ->
    (forall c, updateTexture sqrt c s = Returns s) /\
    (forall mode, setMode mode s = Returns (set_currentMode mode s)) /\
    (forall finishId,
       setFinish finishId s =
       Returns (if truthy (getPreset finishId)
                then set_currentFinish finishId s else s)).
Proof.
  intros sqrt s Hr Hm.
  pose proof (reachable_decalNeedsPanel sqrt s Hr Hm) as Hd.
  repeat split.
  - intros c; unfold updateTexture; rewrite Hm; reflexivity.
  - intros mode; unfold setMode, reapply; simpl; rewrite Hd; reflexivity.
  - intros fid; unfold setFinish.
    destruct (truthy (getPreset fid)); simpl; [ | reflexivity ].
    rewrite Hm; simpl; unfold reapply; simpl; rewrite Hd; reflexivity.
Qed.

Lemma C8_without_target_mesh_witness :
  updateTexture exactSqrt (Some 7%nat) initialState = Returns initialState /\
  setMode "engraved" initialState
    = Returns (set_currentMode "engraved" initialState) /\
  setFinish "raw" initialState = Returns (set_currentFinish "raw" initialState).
Proof.
  destruct (C8_without_target_mesh exactSqrt initialState
              (reachable_init exactSqrt) eq_refl) as (Hu & Hm & Hf).
  split; [ apply Hu | ]. split; [ apply Hm | apply (Hf "raw") ].
Defined.

(** C8, refuted as stated: with no target mesh resolved, [setMode] and
    [setFinish] still change the stored mode and finish. *)
Lemma C8_counterexample :
  frontPanelMesh initialState = None /\
  currentMode (stateOf (setMode "engraved" initialState))
    <> currentMode initialState /\
  currentFinish (stateOf (setFinish "raw" initialState))
    <> currentFinish initialState.
Proof. repeat split; discriminate. Qed.

(** ** Surface locator *)

(** When the material controller completes and the panel geometry has
    normals, [updateTexture] detaches the previous decal, disposes its
    geometry and installs a decal at the frame of the locator, with a
    texture made from the source it was given. *)
Lemma updateTexture_installs sqrt c s m :
  frontPanelMesh s = Some m ->
  controllerCompletes s ->
  hasNormals m = true ->
  exists s' d t,
    updateTexture sqrt c s = Returns s' /\
    decalMesh s' = Some d /\
    activeTexture s' = Some t /\
    image t = c /\
    decal_position (geometry d) = position (locate sqrt m) /\
    decal_orientation (geometry d) = orientation (locate sqrt m) /\
    In (DecalNode (decal_id d)) (scene s') /\
    (map (decalMaterial s') = Some t \/ alphaMap (decalMaterial s') = Some t) /\
    (forall d0, decalMesh s = Some d0 ->
       In (OfDecal (decal_geometry_id (geometry d0))) (disposedGeometries s')) /\
    decal_id d = S (S (nextId s)) /\
    scene s' = sceneAdd (DecalNode (decal_id d))
                 (match decalMesh s with
                  | Some d0 => sceneRemove (DecalNode (decal_id d0)) (scene s)
                  | None => scene s
                  end).
Proof.
  intros Hm Hok Hn; unfold updateTexture; rewrite Hm, Hn.
  unfold controllerCompletes, applyMaterialMode, finishPreset in *.
  destruct (warned (locate sqrt m)), (decalMesh s) as [d0|] eqn:Hd;
    unfold removeDecals; rewrite Hd; simpl;
    (destruct (String.eqb_spec (currentMode s) "engraved") as [He|He];
     [ destruct Hok as [Hok|Hok]; [ contradiction | ];
       destruct (getEngraved _); [ | contradiction ] | ]);
    simpl; do 3 eexists;
    (split; [ reflexivity | ]); simpl;
    repeat (split; [ reflexivity | ]);
    (split; [ unfold sceneAdd; apply in_or_app; right; left; reflexivity | ]);
    (split; [ auto | ]);
    (split; [ | split; reflexivity ]);
    intros d1 E; try discriminate E; injection E as <-; left; reflexivity.
Qed.

(** On a panel whose geometry has no normals the constructor of the decal
    geometry throws: the update ends in a [TypeError] once the controller
    has run, and leaves no decal. *)
Lemma updateTexture_without_normals sqrt c s m :
  frontPanelMesh s = Some m ->
  hasNormals m = false ->
  threw (updateTexture sqrt c s) = true /\
  decalMesh (stateOf (updateTexture sqrt c s)) = None.
Proof.
  intros Hm Hn; unfold updateTexture; rewrite Hm, Hn.
  pose proof (removeDecals_clears s) as Hnone.
  match goal with |- context [applyMaterialMode ?t ?x] =>
    pose proof (applyMaterialMode_frame t x) as Hf;
    destruct (applyMaterialMode t x) as [s5|s5]
  end; simpl in *; rewrite Hf; simpl;
    destruct (warned (locate sqrt m)); simpl; auto.
Qed.

Lemma own_finish_completes s p :
  assoc (currentFinish s) FINISH_PRESETS = Some p -> controllerCompletes s.
Proof.
  intros H; right; rewrite (finishPreset_own _ _ H); discriminate.
Qed.

(** C3 (as amended): when the ray meets no geometry the locator returns
    the offset centre moved forward by half the depth of the bounding box,
    with a zero rotation (projection along the fixed +Z axis); the warning
    is logged and the frame depends on the bounding box alone.  The miss
    itself does not make the call fail: the decal is installed at that
    frame whenever the controller completes and the panel geometry has the
    normals the decal geometry is built from; without them the call
    throws and leaves no decal. *)
Theorem C3_fallback_frame :
  forall (sqrt : Q -> Q) (s : State) (m : Mesh) (c : option nat),
    frontPanelMesh s = Some m ->
    intersections m (rayOrigin m) (rayDirection sqrt m) = [] ->
    let f := locate sqrt m in
    let center := getCenter (boundingBox m) in
    let size := getSize (boundingBox m) in
    position f = vec3 (vx center + vx size * 0.50) (vy center + vy size * 0.25)
                   (vz center + 0 + vz size / 2) /\
    orientation f = EulerZero /\
    frameNormal (orientation f) = vec3 0 0 1 /\
    warnings (stateOf (updateTexture sqrt c s))
      = (warnings s ++ [FALLBACK_WARNING])%list /\
    (controllerCompletes s -> hasNormals m = true ->
     exists s' d, updateTexture sqrt c s = Returns s' /\
       decalMesh s' = Some d /\
       decal_position (geometry d) = position f /\
       decal_orientation (geometry d) = EulerZero) /\
    (hasNormals m = false ->
     threw (updateTexture sqrt c s) = true /\
     decalMesh (stateOf (updateTexture sqrt c s)) = None) /\
    (forall m', boundingBox m' = boundingBox m ->
       intersections m' (rayOrigin m') (rayDirection sqrt m') = [] ->
       locate sqrt m' = f).
Proof.
  intros sqrt s m c Hm Hmiss f center size.
  assert (Hf : f = mkFrame
                 (vec3 (vx (offsetCenter m)) (vy (offsetCenter m))
                    (vz (offsetCenter m) + vz (getSize (boundingBox m)) / 2))
                 EulerZero
                 (vec3 (vx (getSize (boundingBox m)) * 0.5915)
                    (vy (getSize (boundingBox m)) * 0.845) 0.2) true).
  { subst f; unfold locate; rewrite Hmiss; reflexivity. }
  split; [ rewrite Hf; reflexivity | ].
  split; [ rewrite Hf; reflexivity | ].
  split; [ rewrite Hf; reflexivity | ].
  split.
  { unfold updateTexture; rewrite Hm.
    fold f; rewrite Hf; simpl.
    match goal with |- context [applyMaterialMode ?t ?x] =>
      pose proof (applyMaterialMode_frame t x) as Hfr;
      destruct (applyMaterialMode t x) as [s5|s5]
    end; destruct (hasNormals m); simpl in *; rewrite Hfr; simpl;
      unfold removeDecals; destruct (decalMesh s); reflexivity. }
  split.
  { intros Hok Hn.
    destruct (updateTexture_installs sqrt c s m Hm Hok Hn)
      as (s' & d & t & Hs' & Hd & _ & _ & Hp & Ho & _).
    exists s', d; repeat split; try assumption.
    rewrite Ho; fold f; rewrite Hf; reflexivity. }
  split; [ apply updateTexture_without_normals; exact Hm | ].
  intros m' Hbox Hmiss'.
  rewrite Hf; unfold locate; rewrite Hmiss'.
  unfold offsetCenter; rewrite Hbox; reflexivity.
Qed.

Lemma C3_fallback_frame_witness :
  Veq (position (locate exactSqrt missedPanel)) (vec3 2 1.5 2)
  /\ warnings (stateOf (updateTexture exactSqrt None loadedState))
     = [FALLBACK_WARNING]
  /\ exists s' d, updateTexture exactSqrt None loadedState = Returns s' /\
       decalMesh s' = Some d /\
       decal_orientation (geometry d) = EulerZero.
Proof.
  destruct (C3_fallback_frame exactSqrt loadedState missedPanel None
              eq_refl eq_refl) as (Hp & _ & _ & Hw & Hinst & _).
  split; [ rewrite Hp; vm_compute; repeat split | ].
  split; [ exact Hw | ].
  assert (Hok : controllerCompletes loadedState) by (left; discriminate).
  destruct (Hinst Hok eq_refl) as (s' & d & Hs' & Hd & _ & Ho).
  exists s', d; repeat split; assumption.
Defined.

(** C3, refuted as stated: on a box of depth 2 the fallback position lies
    one unit in front of the offset centre. *)
Lemma C3_counterexample :
  intersections missedPanel (rayOrigin missedPanel)
    (rayDirection exactSqrt missedPanel) = [] /\
  ~ Veq (position (locate exactSqrt missedPanel)) (offsetCenter missedPanel).
Proof.
  split; [ reflexivity | ].
  intros (_ & _ & H); vm_compute in H; discriminate H.
Qed.



(** ** Decal lifecycle *)

Lemma filter_swap {A : Type} (p q : A -> bool) (l : list A) :
  filter p (filter q l) = filter q (filter p l).
Proof.
  induction l as [|a l IH]; simpl; [ reflexivity | ].
  destruct (q a) eqn:Hq, (p a) eqn:Hp; simpl; rewrite ?Hq, ?Hp, IH; reflexivity.
Qed.

Lemma decals_after_remove o l :
  filter isDecalNode (sceneRemove o l) = sceneRemove o (filter isDecalNode l).
Proof. apply filter_swap. Qed.

Lemma decals_without_model i l :
  filter isDecalNode (sceneRemove (ModelNode i) l) = filter isDecalNode l.
Proof.
  induction l as [|[j|j] l IH]; simpl; [ reflexivity | | rewrite IH; reflexivity ].
  destruct (Nat.eqb j i); simpl; exact IH.
Qed.

Lemma decals_with_model i l :
  filter isDecalNode (sceneAdd (ModelNode i) l) = filter isDecalNode l.
Proof.
  unfold sceneAdd; rewrite filter_app, decals_without_model; simpl.
  apply app_nil_r.
Qed.



Lemma sceneRemove_self i : sceneRemove (DecalNode i) [DecalNode i] = [].
Proof. simpl; rewrite Nat.eqb_refl; reflexivity. Qed.

Lemma disposed_mesh_geometries (g : nat) (ms : list Mesh) (l : list GeometryRef) :
  In (OfDecal g) (List.map (fun c => OfMesh (geometry_id c)) ms ++ l) <->
  In (OfDecal g) l.
Proof.
  rewrite in_app_iff; split; [ intros [H | H]; [ | exact H ] | auto ].
  apply in_map_iff in H; destruct H as (c & E & _); discriminate E.
Qed.

(** [removeDecals] detaches the active decal and disposes its geometry. *)
Lemma removeDecals_invariant s :
  lifecycleInvariant s ->
  lifecycleInvariant (removeDecals s) /\
  decalsAttached (removeDecals s) = [] /\
  (forall g, activeGeometry s g -> disposed (removeDecals s) g).
Proof.
  intros [Ha Hr Hl Hk Hg Ht Hti Hd].
  unfold removeDecals, decalsAttached, activeDecalNode, activeGeometry, disposed,
    referencedTexture, materialTexture in *.
  destruct (decalMesh s) as [d|] eqn:Hdm.
  - split; [ | split ].
    + constructor; unfold decalsAttached, activeDecalNode, activeGeometry, disposed,
        referencedTexture, materialTexture; simpl.
      * rewrite decals_after_remove, Ha; apply sceneRemove_self.
      * intros g Hin; destruct (Hr g Hin) as [(d' & E & <-) | H].
        -- injection E as <-; right; left; reflexivity.
        -- right; right; exact H.
      * intros g (d' & E & _); discriminate E.
      * intros g [(d' & E & _) | [E | H]]; [ discriminate E | | apply Hk; auto ].
        injection E as <-; apply Hk; left; eauto.
      * exact Hg.
      * exact Ht.
      * exact Hti.
      * exact Hd.
    + simpl; rewrite decals_after_remove, Ha; apply sceneRemove_self.
    + simpl; intros g (d' & E & <-); injection E as <-; left; reflexivity.
  - split; [ | split ].
    + constructor; unfold decalsAttached, activeDecalNode, activeGeometry, disposed,
        referencedTexture, materialTexture; rewrite ?Hdm; assumption.
    + exact Ha.
    + intros g (d' & E & _); discriminate E.
Qed.

(** The invariant only reads the scene, the decal, the counters and the
    texture references: a step that keeps them keeps the invariant. *)
Lemma invariant_transfer s s' :
  scene s' = scene s ->
  decalMesh s' = decalMesh s ->
  nextId s' = nextId s ->
  allocatedTextures s' = allocatedTextures s ->
  allocatedGeometries s' = allocatedGeometries s ->
  disposedGeometries s' = disposedGeometries s ->
  (forall t, referencedTexture s' t -> referencedTexture s t) ->
  lifecycleInvariant s -> lifecycleInvariant s'.
Proof.
  intros Hsc Hdm Hn Hat Hag Hdg Href [Ha Hr Hl Hk Hg Ht Hti Hd].
  constructor;
    unfold decalsAttached, activeDecalNode, activeGeometry, disposed in *;
    rewrite ?Hsc, ?Hdm, ?Hn, ?Hat, ?Hag, ?Hdg; auto.
Qed.

(** After the controller ran, also when it threw, the material holds no
    texture but the one it was given. *)
Lemma applyMaterialMode_textures t s t' :
  materialTexture (stateOf (applyMaterialMode t s)) t' -> t' = t.
Proof.
  unfold materialTexture, applyMaterialMode.
  destruct (String.eqb (currentMode s) "engraved"); simpl.
  - destruct (getEngraved (finishPreset s)); simpl;
      intros [E | E]; congruence.
  - intros [E | E]; congruence.
Qed.

Lemma reapply_references s t :
  referencedTexture (stateOf (reapply s)) t -> referencedTexture s t.
Proof.
  unfold reapply.
  destruct (decalMesh s); [ | trivial ].
  destruct (activeTexture s) as [t0|] eqn:Ht; [ | trivial ].
  rewrite (applyMaterialMode_frame t0 s).
  unfold referencedTexture at 1; simpl; rewrite Ht.
  intros [E | H]; left; rewrite Ht; [ exact E | ].
  f_equal; symmetry.
  apply (applyMaterialMode_textures t0 s t).
  unfold materialTexture in *; simpl in H; exact H.
Qed.

Lemma reapply_invariant s :
  lifecycleInvariant s -> lifecycleInvariant (stateOf (reapply s)).
Proof.
  apply invariant_transfer; try (rewrite (reapply_frame s); reflexivity).
  apply reapply_references.
Qed.

Lemma setMode_invariant mode s :
  lifecycleInvariant s -> lifecycleInvariant (stateOf (setMode mode s)).
Proof.
  intros Inv; apply (reapply_invariant (set_currentMode mode s)).
  revert Inv; apply invariant_transfer; auto.
Qed.

Lemma setFinish_invariant finishId s :
  lifecycleInvariant s -> lifecycleInvariant (stateOf (setFinish finishId s)).
Proof.
  intros Inv; unfold setFinish.
  destruct (truthy (getPreset finishId)); simpl; [ | exact Inv ].
  destruct (frontPanelMesh s) as [m|]; simpl;
    [ destruct (material m); simpl;
      [ destruct (getBase (getPreset finishId)); simpl | ] | ];
    try apply reapply_invariant;
    revert Inv; apply invariant_transfer; auto.
Qed.

(** What [updateTexture] leaves behind on a resolved panel, whether the
    controller completed (second case) or threw (first case). *)
Lemma updateTexture_fields sqrt c s m :
  frontPanelMesh s = Some m ->
  let s1 := removeDecals s in
  let n := nextId s1 in
  let s' := stateOf (updateTexture sqrt c s) in
  activeTexture s' = Some (mkTexture n c "srgb" true) /\
  allocatedTextures s' = n :: allocatedTextures s1 /\
  disposedGeometries s' = disposedGeometries s1 /\
  (forall t, materialTexture s' t -> t = mkTexture n c "srgb" true) /\
  ((decalMesh s' = None /\ scene s' = scene s1 /\
    allocatedGeometries s' = allocatedGeometries s1 /\ nextId s' = S n) \/
   (exists d, decalMesh s' = Some d /\ decal_id d = S (S n) /\
      decal_geometry_id (geometry d) = S n /\
      scene s' = sceneAdd (DecalNode (S (S n))) (scene s1) /\
      allocatedGeometries s' = S n :: allocatedGeometries s1 /\
      nextId s' = S (S (S n)))).
Proof.
  intros Hm s1 n s'; subst s'.
  pose proof (removeDecals_clears s) as Hnone; fold s1 in Hnone.
  unfold updateTexture; rewrite Hm; fold s1.
  match goal with |- context [applyMaterialMode ?t ?x] =>
    pose proof (applyMaterialMode_frame t x) as Hf;
    pose proof (applyMaterialMode_textures t x) as Hx;
    destruct (applyMaterialMode t x) as [s5|s5]
  end; destruct (hasNormals m); simpl in Hf, Hx; simpl; rewrite Hf; simpl;
    destruct (warned (locate sqrt m)); simpl;
    repeat (split; [ first [ reflexivity | exact Hx ] | ]);
    first [ solve [ left; repeat split; exact Hnone ]
          | solve [ right; eexists; repeat split ] ].
Qed.

Lemma updateTexture_invariant sqrt c s :
  lifecycleInvariant s -> lifecycleInvariant (stateOf (updateTexture sqrt c s)).
Proof.
  intros Inv.
  destruct (frontPanelMesh s) as [m|] eqn:Hm;
    [ | unfold updateTexture; rewrite Hm; exact Inv ].
  destruct (removeDecals_invariant s Inv) as ([Ha Hr Hl Hk Hg Ht Hti Hd] & Hempty & _).
  pose proof (removeDecals_clears s) as Hnone.
  destruct (updateTexture_fields sqrt c s m Hm)
    as (Htex & Hat & Hdg & Hmt & Hcases).
  set (s1 := removeDecals s) in *.
  set (s' := stateOf (updateTexture sqrt c s)) in *.
  assert (Href : forall t, referencedTexture s' t ->
                           hd_error (allocatedTextures s') = Some (tex_id t)).
  { intros t [E | E]; rewrite Hat; simpl.
    - rewrite Htex in E; injection E as <-; reflexivity.
    - rewrite (Hmt t E); reflexivity. }
  assert (Hnd : NoDup (allocatedTextures s')).
  { rewrite Hat; constructor; [ | exact Hd ].
    intros Hin; apply Hti in Hin; lia. }
  unfold decalsAttached, activeDecalNode, activeGeometry, disposed in *.
  rewrite Hnone in *.
  assert (Hdisp : forall g, In (OfDecal g) (disposedGeometries s1) ->
                            (g < nextId s1)%nat).
  { intros g H; apply Hg, Hk; right; exact H. }
  destruct Hcases as [(Hdm & Hsc & Hag & Hn) | (d & Hdm & Hid & Hgid & Hsc & Hag & Hn)].
  - constructor;
      unfold decalsAttached, activeDecalNode, activeGeometry, disposed;
      rewrite ?Hdm, ?Hsc, ?Hag, ?Hn, ?Hdg; auto.
    + intros g Hin; apply Hg in Hin; lia.
    + intros i; rewrite Hat; intros [<- | Hin]; [ lia | ].
      apply Hti in Hin; lia.
  - constructor;
      unfold decalsAttached, activeDecalNode, activeGeometry, disposed;
      rewrite ?Hdm, ?Hsc, ?Hag, ?Hn, ?Hdg; auto.
    + unfold sceneAdd; rewrite filter_app, decals_after_remove, Ha, Hid.
      reflexivity.
    + intros g [<- | Hin]; [ left; eauto | ].
      destruct (Hr g Hin) as [(d' & E & _) | H]; [ discriminate E | right; exact H ].
    + intros g (d' & E & <-) H; injection E as <-.
      apply Hdisp in H; lia.
    + intros g [(d' & E & <-) | H].
      * injection E as <-; left; symmetry; exact Hgid.
      * right; apply Hk; right; exact H.
    + intros g [<- | Hin]; [ lia | ].
      apply Hg in Hin; lia.
    + intros i; rewrite Hat; intros [<- | Hin]; [ lia | ].
      apply Hti in Hin; lia.
Qed.

Lemma loadModel_invariant k s :
  lifecycleInvariant s -> lifecycleInvariant (stateOf (loadModel k s)).
Proof.
  intros Inv; unfold loadModel.
  destruct (currentModel s) as [cm|]; simpl; [ | exact Inv ].
  apply removeDecals_invariant.
  destruct Inv as [Ha Hr Hl Hk Hg Ht Hti Hd].
  constructor;
    unfold decalsAttached, activeDecalNode, activeGeometry, disposed in *;
    simpl; auto.
  - rewrite decals_without_model; exact Ha.
  - intros g Hin; destruct (Hr g Hin) as [H | H]; [ left; exact H | right ].
    apply disposed_mesh_geometries; exact H.
  - intros g Hact H; apply disposed_mesh_geometries in H.
    exact (Hl g Hact H).
  - intros g [H | H]; apply Hk; [ left; exact H | right ].
    apply disposed_mesh_geometries in H; exact H.
Qed.

Lemma onModelLoaded_invariant gltf s :
  lifecycleInvariant s -> lifecycleInvariant (stateOf (onModelLoaded gltf s)).
Proof.
  intros [Ha Hr Hl Hk Hg Ht Hti Hd]; unfold onModelLoaded; simpl.
  destruct (frontPanelMesh s) eqn:Hm; simpl; rewrite ?Hm; simpl; rewrite ?Hm;
    [ | destruct (find looksLikePanel (children gltf)); simpl ];
    (constructor;
     unfold decalsAttached, activeDecalNode, activeGeometry, disposed in *;
     simpl; auto;
     rewrite decals_with_model; exact Ha).
Qed.

Lemma initial_invariant : lifecycleInvariant initialState.
Proof.
  constructor; simpl; try reflexivity; try contradiction; try constructor.
  - intros g (d & E & _); discriminate E.
  - intros g [(d & E & _) | H]; [ discriminate E | exact H ].
  - intros t [E | [E | E]]; discriminate E.
Qed.

Lemma dispatch_invariant sqrt e s :
  lifecycleInvariant s -> lifecycleInvariant (stateOf (dispatch sqrt e s)).
Proof.
  destruct e; simpl.
  - apply setMode_invariant.
  - apply setFinish_invariant.
  - apply updateTexture_invariant.
  - apply loadModel_invariant.
  - apply onModelLoaded_invariant.
Qed.

Lemma run_invariant sqrt es :
  forall s, lifecycleInvariant s -> lifecycleInvariant (run sqrt es s).
Proof.
  induction es as [|e es IH]; intros s Inv; simpl; [ exact Inv | ].
  apply IH, dispatch_invariant, Inv.
Qed.

(** After every sequence of events the scene holds at most one decal
    mesh, the active one; every decal geometry created earlier has been
    disposed and the active one has not; no texture created for an earlier
    update is still held by the state or by the decal material; and the
    next replacement starts by detaching the decal and disposing its
    geometry, before the new one is attached. *)
Theorem decal_lifecycle :
  forall (sqrt : Q -> Q) (es : list Event),
    let s := run sqrt es initialState in
    (length (decalsAttached s) <= 1)%nat /\
    decalsAttached s = activeDecalNode s /\
    (forall g, In g (allocatedGeometries s) -> activeGeometry s g \/ disposed s g) /\
    (forall g, activeGeometry s g -> ~ disposed s g) /\
    (forall t i, referencedTexture s t ->
                 In i (tl (allocatedTextures s)) -> tex_id t <> i) /\
    decalsAttached (removeDecals s) = [] /\
    (forall g, activeGeometry s g -> disposed (removeDecals s) g) /\
    (forall c, length (decalsAttached (stateOf (updateTexture sqrt c s))) <= 1)%nat.
Proof.
  intros sqrt es s.
  assert (Inv : lifecycleInvariant s) by apply run_invariant, initial_invariant.
  assert (Hone : forall x, lifecycleInvariant x -> (length (decalsAttached x) <= 1)%nat).
  { intros x Hx; rewrite (inv_attached x Hx); unfold activeDecalNode.
    destruct (decalMesh x); simpl; lia. }
  destruct (removeDecals_invariant s Inv) as (_ & Hempty & Hgone).
  split; [ apply Hone, Inv | ].
  split; [ apply (inv_attached s Inv) | ].
  split; [ apply (inv_retired s Inv) | ].
  split; [ apply (inv_live s Inv) | ].
  split.
  { intros t i Href Hin E.
    pose proof (inv_latest s Inv t Href) as Hhd.
    pose proof (inv_distinct s Inv) as Hnd.
    destruct (allocatedTextures s) as [|j l]; [ discriminate Hhd | ].
    simpl in *; injection Hhd as ->.
    inversion Hnd; subst; contradiction. }
  split; [ exact Hempty | ].
  split; [ exact Hgone | ].
  intros c; apply Hone, updateTexture_invariant, Inv.
Qed.

(** *** Textures *)






(** ** Removing the source image *)




(** Two updates in a row on the sample panel: one decal attached, the
    geometry of the first one disposed, the second texture in use. *)
Example two_updates_leave_one_decal :
  let s := run exactSqrt (decorating missedPanel ++ [UpdateTexture (Some 8%nat)])
             initialState in
  decalsAttached s = [DecalNode 5] /\
  allocatedGeometries s = [4%nat; 1%nat] /\
  disposedGeometries s = [OfDecal 1] /\
  allocatedTextures s = [3%nat; 0%nat] /\
  option_map tex_id (activeTexture s) = Some 3%nat /\
  option_map tex_id (map (decalMaterial s)) = Some 3%nat.
Proof. vm_compute; repeat split. Qed.

(** * Further properties of the script *)

(** ** States the script reaches *)

(** Whether it returns or throws, the controller leaves the texture it was
    given in exactly one of the two channels. *)
Lemma applyMaterialMode_one_channel t s :
  let dm := decalMaterial (stateOf (applyMaterialMode t s)) in
  (map dm = Some t /\ alphaMap dm = None) \/
  (map dm = None /\ alphaMap dm = Some t).
Proof.
  unfold applyMaterialMode.
  destruct (String.eqb (currentMode s) "engraved"); simpl; [ | left; auto ].
  destruct (getEngraved (finishPreset s)); simpl; right; auto.
Qed.

Lemma removeDecals_frame s :
  currentMode (removeDecals s) = currentMode s /\
  currentFinish (removeDecals s) = currentFinish s /\
  currentModel (removeDecals s) = currentModel s /\
  activeTexture (removeDecals s) = activeTexture s /\
  decalMaterial (removeDecals s) = decalMaterial s /\
  warnings (removeDecals s) = warnings s.
Proof. unfold removeDecals; destruct (decalMesh s); repeat split. Qed.

(** What a texture update keeps and what it builds, also when the
    controller throws in the middle of it. *)
Lemma updateTexture_selection sqrt c s m :
  frontPanelMesh s = Some m ->
  let s' := stateOf (updateTexture sqrt c s) in
  currentMode s' = currentMode s /\
  currentFinish s' = currentFinish s /\
  currentModel s' = currentModel s /\
  frontPanelMesh s' = Some m /\
  (exists t, activeTexture s' = Some t /\ image t = c /\
     ((map (decalMaterial s') = Some t /\ alphaMap (decalMaterial s') = None) \/
      (map (decalMaterial s') = None /\ alphaMap (decalMaterial s') = Some t))) /\
  (forall d, decalMesh s' = Some d ->
     projected_on (geometry d) = geometry_id m /\
     decal_position (geometry d) = position (locate sqrt m) /\
     decal_orientation (geometry d) = orientation (locate sqrt m) /\
     decal_size (geometry d) = decalSize (locate sqrt m)).
Proof.
  intros Hm s'; subst s'.
  destruct (removeDecals_frame s) as (Hmo & Hfi & Hcm & _).
  pose proof (removeDecals_keeps_panel s) as Hp.
  pose proof (removeDecals_clears s) as Hnone.
  unfold updateTexture; rewrite Hm.
  match goal with |- context [applyMaterialMode ?t ?x] =>
    pose proof (applyMaterialMode_frame t x) as Hf;
    pose proof (applyMaterialMode_one_channel t x) as Hx;
    destruct (applyMaterialMode t x) as [s5|s5]
  end; destruct (hasNormals m); simpl in Hf, Hx; simpl; rewrite Hf; simpl;
    destruct (warned (locate sqrt m)); simpl;
    rewrite ?Hmo, ?Hfi, ?Hcm, ?Hp, ?Hm;
    repeat (split; [ reflexivity | ]);
    (split; [ eexists; split; [ reflexivity | split; [ reflexivity | exact Hx ] ] | ]);
    intros d E; try (rewrite Hnone in E; discriminate E);
    injection E as <-; repeat split.
Qed.

Lemma reapply_wellFormed s : wellFormed s -> wellFormed (stateOf (reapply s)).
Proof.
  intros [Hfin Htex Htar Hch Hno Hmod].
  pose proof (reapply_frame s) as Hf; simpl in Hf.
  unfold reapply in *.
  destruct (decalMesh s) as [d|] eqn:Hd;
    [ | constructor; simpl; rewrite ?Hd; assumption ].
  destruct (activeTexture s) as [t|] eqn:Ht;
    [ | exfalso; apply Htex; [ discriminate | reflexivity ] ].
  pose proof (applyMaterialMode_one_channel t s) as Hx; simpl in Hx.
  constructor; rewrite Hf; simpl; rewrite ?Hd, ?Ht; auto.
  - intros t' E; injection E as <-; exact Hx.
  - discriminate.
Qed.

Lemma initial_wellFormed : wellFormed initialState.
Proof.
  constructor; simpl; try reflexivity; try discriminate; auto.
Qed.

Lemma dispatch_wellFormed sqrt e s :
  wellFormed s -> wellFormed (stateOf (dispatch sqrt e s)).
Proof.
  intros WF; destruct e as [mode|fid|c|k|gltf]; simpl.
  - apply (reapply_wellFormed (set_currentMode mode s)).
    destruct WF; constructor; assumption.
  - unfold setFinish.
    destruct (truthy (getPreset fid)) eqn:Htr; simpl; [ | exact WF ].
    destruct WF as [Hfin Htex Htar Hch Hno Hmod].
    destruct (frontPanelMesh s) as [m|] eqn:Hm; simpl;
      [ destruct (material m) as [bm|]; simpl;
        [ destruct (getBase (getPreset fid)); simpl | ] | ];
      try apply reapply_wellFormed;
      constructor; simpl; rewrite ?Hm; auto;
      try (intros d E; destruct (Htar d E) as (m' & E' & Hg);
           injection E' as <-; eexists; split; [ reflexivity | exact Hg ]);
      intros E; apply Hmod in E; discriminate E.
  - destruct (frontPanelMesh s) as [m|] eqn:Hm;
      [ | unfold updateTexture; rewrite Hm; exact WF ].
    destruct (updateTexture_selection sqrt c s m Hm)
      as (_ & Hfi & Hcm & Hp & (t & Ht & _ & Hx) & Hd).
    destruct WF as [Hfin Htex Htar Hch Hno Hmod].
    constructor; rewrite ?Hfi, ?Hp, ?Ht, ?Hcm; auto; try discriminate.
    + intros d E; exists m; split; [ reflexivity | apply (Hd d E) ].
    + intros t' E; injection E as <-; exact Hx.
    + intros E; apply Hmod in E; rewrite Hm in E; discriminate E.
  - unfold loadModel.
    destruct (currentModel s) as [cm|]; simpl; [ | exact WF ].
    destruct WF as [Hfin Htex Htar Hch Hno Hmod].
    match goal with |- wellFormed (removeDecals ?x) =>
      pose proof (removeDecals_clears x) as Hnone;
      pose proof (removeDecals_keeps_panel x) as Hpan;
      destruct (removeDecals_frame x) as (_ & Hfi & _ & Hat & Hdm & _)
    end.
    constructor; rewrite ?Hnone, ?Hfi, ?Hat, ?Hdm, ?Hpan; simpl; auto;
      try discriminate; try contradiction.
  - destruct WF as [Hfin Htex Htar Hch Hno Hmod].
    unfold onModelLoaded; simpl.
    destruct (frontPanelMesh s) as [m|] eqn:Hm; simpl; rewrite ?Hm; simpl;
      rewrite ?Hm.
    + constructor; simpl; auto; try discriminate; rewrite Hm; exact Htar.
    + assert (Hd : decalMesh s = None).
      { destruct (decalMesh s) as [d|] eqn:Hd; [ | reflexivity ].
        destruct (Htar d eq_refl) as (m' & E & _); discriminate E. }
      destruct (find looksLikePanel (children gltf)); simpl;
        constructor; simpl; auto; try discriminate; rewrite Hd; discriminate.
Qed.

Lemma reachable_wellFormed sqrt s : reachable sqrt s -> wellFormed s.
Proof.
  induction 1; [ apply initial_wellFormed | apply dispatch_wellFormed; assumption ].
Qed.

(** In every state the script reaches, the stored finish passes the guard
    of [setFinish]; the fallback to the 'powder' preset in
    [applyMaterialMode] is therefore never taken. *)
Theorem powder_fallback_never_taken :
  forall (sqrt : Q -> Q) (s : State),
    reachable sqrt s ->
    truthy (getPreset (currentFinish s)) = true /\
    finishPreset s = getPreset (currentFinish s).
Proof.
  intros sqrt s Hr.
  pose proof (wf_finish s (reachable_wellFormed sqrt s Hr)) as H.
  split; [ exact H | unfold finishPreset; rewrite H; reflexivity ].
Qed.

Lemma powder_fallback_never_taken_witness :
  finishPreset decoratedState = getPreset (currentFinish decoratedState).
Proof.
  exact (proj2 (powder_fallback_never_taken exactSqrt decoratedState
                  decoratedState_reachable)).
Defined.

(** A decal never outlives what it was built from: whenever a decal
    exists, a texture is active and the decal was projected on the mesh
    that is the current panel, so that [setMode] and [setFinish] reapply
    the material exactly when a decal exists. *)
Theorem decal_has_texture_and_target :
  forall (sqrt : Q -> Q) (s : State) (d : DecalMesh),
    reachable sqrt s ->
    decalMesh s = Some d ->
    exists t m,
      activeTexture s = Some t /\
      frontPanelMesh s = Some m /\
      projected_on (geometry d) = geometry_id m /\
      reapply s = applyMaterialMode t s.
Proof.
  intros sqrt s d Hr Hd.
  destruct (reachable_wellFormed sqrt s Hr) as [_ Htex Htar _ _ _].
  destruct (Htar d Hd) as (m & Hm & Hg).
  destruct (activeTexture s) as [t|] eqn:Ht;
    [ | exfalso; apply Htex; [ rewrite Hd; discriminate | reflexivity ] ].
  exists t, m; repeat split; try assumption.
  unfold reapply; rewrite Hd, Ht; reflexivity.
Qed.

Lemma decal_has_texture_and_target_witness :
  exists t m,
    activeTexture decoratedState = Some t /\
    frontPanelMesh decoratedState = Some m /\
    geometry_id m = 10%nat.
Proof.
  destruct (decalMesh decoratedState) as [d|] eqn:Hd; [ | discriminate Hd ].
  destruct (decal_has_texture_and_target exactSqrt decoratedState d
              decoratedState_reachable Hd) as (t & m & Ht & Hm & Hg & _).
  exists t, m; repeat split; try assumption.
  rewrite <- Hg; injection Hd as <-; reflexivity.
Defined.

(** The two texture channels of the decal material in the states the
    script reaches: both null until a first texture exists, and from then
    on exactly one of them holds the active texture and the other is null. *)
Theorem material_channels_exclusive :
  forall (sqrt : Q -> Q) (s : State),
    reachable sqrt s ->
    (activeTexture s = None ->
     map (decalMaterial s) = None /\ alphaMap (decalMaterial s) = None) /\
    (forall t, activeTexture s = Some t ->
       (map (decalMaterial s) = Some t /\ alphaMap (decalMaterial s) = None) \/
       (map (decalMaterial s) = None /\ alphaMap (decalMaterial s) = Some t)).
Proof.
  intros sqrt s Hr.
  destruct (reachable_wellFormed sqrt s Hr) as [_ _ _ Hch Hno _].
  split; assumption.
Qed.

Lemma material_channels_exclusive_witness :
  map (decalMaterial decoratedState) = activeTexture decoratedState /\
  alphaMap (decalMaterial decoratedState) = None.
Proof.
  destruct (material_channels_exclusive exactSqrt decoratedState
              decoratedState_reachable) as (_ & H).
  destruct (activeTexture decoratedState) as [t|] eqn:Ht; [ | discriminate Ht ].
  destruct (H t eq_refl) as [(Hm & Ha) | (Hm & Ha)].
  - split; assumption.
  - discriminate Hm.
Defined.

(** ** Mode and finish selection, further *)

(** Neither [setMode] nor [setFinish] creates, attaches, detaches or
    disposes anything, whatever they are given and also when they throw:
    the scene, the decal, the texture, the loaded model, the counters and
    the console are as before, and so is the colour of the panel. *)
Theorem selection_leaves_resources :
  forall (s : State) (arg : string) (s' : State),
    s' = stateOf (setMode arg s) \/ s' = stateOf (setFinish arg s) ->
    scene s' = scene s /\
    decalMesh s' = decalMesh s /\
    activeTexture s' = activeTexture s /\
    currentModel s' = currentModel s /\
    nextId s' = nextId s /\
    allocatedTextures s' = allocatedTextures s /\
    allocatedGeometries s' = allocatedGeometries s /\
    disposedGeometries s' = disposedGeometries s /\
    disposedMaterials s' = disposedMaterials s /\
    warnings s' = warnings s /\
    baseColorOf s' = baseColorOf s.
Proof.
  intros s arg s' [-> | ->].
  - unfold setMode; rewrite (reapply_frame (set_currentMode arg s)).
    repeat split.
  - destruct (setFinish_sameDecalInputs arg s) as (_ & _ & Hc & _).
    unfold setFinish in *.
    destruct (truthy (getPreset arg)); simpl in *; [ | repeat split ].
    destruct (frontPanelMesh s) as [m|]; simpl in *;
      [ destruct (material m); simpl in *;
        [ destruct (getBase (getPreset arg)); simpl in * | ] | ];
      try (match goal with |- context [reapply ?x] =>
             rewrite (reapply_frame x) in * end);
      simpl in *; repeat split; exact Hc.
Qed.

Lemma selection_leaves_resources_witness :
  scene (stateOf (setFinish "corten" decoratedState)) = scene decoratedState /\
  decalMesh (stateOf (setMode "engraved" decoratedState)) = decalMesh decoratedState.
Proof.
  split.
  - exact (proj1 (selection_leaves_resources decoratedState "corten" _
                    (or_intror eq_refl))).
  - exact (proj1 (proj2 (selection_leaves_resources decoratedState "engraved" _
                           (or_introl eq_refl)))).
Defined.

(** [setFinish] with a finish of the table writes the base roughness and
    metalness of that preset into the panel material, keeps its colour
    and identity, and writes the normal scale, on both axes, only when the
    material has one; the mesh itself is the same. *)
Theorem setFinish_updates_panel :
  forall (s : State) (F : string) (p : Preset) (m : Mesh) (bm : Material),
    assoc F FINISH_PRESETS = Some p ->
    frontPanelMesh s = Some m ->
    material m = Some bm ->
    exists m' bm',
      frontPanelMesh (stateOf (setFinish F s)) = Some m' /\
      material m' = Some bm' /\
      roughness bm' = b_roughness (base p) /\
      metalness bm' = b_metalness (base p) /\
      color bm' = color bm /\
      material_id bm' = material_id bm /\
      (normalScale bm = None -> normalScale bm' = None) /\
      (normalScale bm <> None ->
       normalScale bm' = Some (b_normalScale (base p), b_normalScale (base p))) /\
      mesh_name m' = mesh_name m /\
      geometry_id m' = geometry_id m /\
      boundingBox m' = boundingBox m /\
      matrixWorld m' = matrixWorld m.
Proof.
  intros s F p m bm HF Hm Hbm.
  exists (withMaterial (updateBaseMaterial (base p) bm) m),
         (updateBaseMaterial (base p) bm).
  split.
  - unfold setFinish.
    rewrite (own_is_truthy _ _ HF); simpl.
    rewrite Hm, Hbm, (own_is_truthy _ _ HF); simpl.
    match goal with |- context [reapply ?x] => rewrite (reapply_frame x) end.
    reflexivity.
  - simpl; repeat split.
    + intros ->; reflexivity.
    + destruct (normalScale bm); [ reflexivity | intros H; contradiction ].
Qed.

Lemma setFinish_updates_panel_witness :
  exists m' bm',
    frontPanelMesh (stateOf (setFinish "brushed" loadedState)) = Some m' /\
    material m' = Some bm' /\
    roughness bm' = 0.35 /\ metalness bm' = 0.95 /\
    color bm' = color sampleMaterial.
Proof.
  destruct (setFinish_updates_panel loadedState "brushed" brushed missedPanel
              sampleMaterial eq_refl eq_refl eq_refl)
    as (m' & bm' & Hm & Hbm & Hr & Hme & Hc & _).
  exists m', bm'; repeat split; assumption.
Defined.

(** Selecting the same finish twice is the same as selecting it once, for
    every identifier, also one that makes the call throw. *)
Theorem setFinish_idempotent :
  forall (s : State) (finishId : string),
    stateOf (setFinish finishId (stateOf (setFinish finishId s)))
    = stateOf (setFinish finishId s).
Proof.
  intros [sc cm fpm dm0 mode0 fin0 tex0 mat0 nid at0 ag0 dg0 dmt0 dtx0 w0] F.
  destruct (getPreset F) as [p| |] eqn:HP;
    destruct (String.eqb mode0 "engraved") eqn:HE;
    destruct fpm as [[nm gid [[mid col ro me [ns|]]|] bb mw ix hn]|];
    destruct dm0 as [d|], tex0 as [t|];
    unfold setFinish, reapply, applyMaterialMode, finishPreset, baseColorOf;
    repeat (progress (cbn; rewrite ?HP, ?HE));
    reflexivity.
Qed.

(** Under a stored finish of the table the last mode selected wins: the
    whole state after [setMode(A)] then [setMode(B)] is the one after
    [setMode(B)] alone, and neither call throws. *)
Theorem setMode_last_wins :
  forall (s : State) (A B : string) (p : Preset),
    assoc (currentFinish s) FINISH_PRESETS = Some p ->
    stateOf (setMode B (stateOf (setMode A s))) = stateOf (setMode B s) /\
    threw (setMode A s) = false /\
    threw (setMode B (stateOf (setMode A s))) = false.
Proof.
  intros s A B p Hp.
  assert (HA : assoc (currentFinish (stateOf (setMode A s))) FINISH_PRESETS = Some p)
    by (rewrite setMode_keeps_finish; exact Hp).
  split; [ | split; eapply setMode_returns; eassumption ].
  pose proof (own_is_truthy _ _ Hp) as HP.
  destruct s as [sc cm fpm dm0 mode0 fin0 tex0 mat0 nid at0 ag0 dg0 dmt0 dtx0 w0].
  simpl in HP.
  unfold setMode, reapply, applyMaterialMode, finishPreset; simpl.
  destruct dm0 as [d|], tex0 as [t|]; simpl; try reflexivity.
  rewrite HP; simpl.
  destruct (String.eqb A "engraved"); simpl; rewrite ?HP; simpl;
    destruct (String.eqb B "engraved"); reflexivity.
Qed.

Lemma setMode_last_wins_witness :
  stateOf (setMode "engraved" (stateOf (setMode "printed" decoratedState)))
  = stateOf (setMode "engraved" decoratedState).
Proof.
  exact (proj1 (setMode_last_wins decoratedState "printed" "engraved" powder
                  eq_refl)).
Defined.

(** ** Choosing the panel *)

Lemma prefix_occurs sub s :
  String.prefix sub s = true <-> exists post, s = sub ++ post.
Proof.
  revert s; induction sub as [|a sub IH]; intros s; simpl.
  - split; [ intros _; exists s; reflexivity | destruct s; reflexivity ].
  - destruct s as [|b s]; simpl;
      [ split; [ discriminate | intros (post & E); discriminate E ] | ].
    destruct (Ascii.ascii_dec a b) as [<- | Hab].
    + rewrite IH; split; intros (post & E); exists post.
      * rewrite E; reflexivity.
      * injection E as E; exact E.
    + split; [ discriminate | intros (post & E); injection E as E _; congruence ].
Qed.

Lemma includes_occurs s sub : includes s sub = true <-> occursIn sub s.
Proof.
  unfold occursIn; induction s as [|a s IH].
  - cbn [includes]; rewrite orb_false_r, prefix_occurs; split.
    + intros (post & E); exists "", post; exact E.
    + intros ([|b pre] & post & E); [ exists post; exact E | discriminate E ].
  - cbn [includes]; rewrite orb_true_iff, IH, prefix_occurs; split.
    + intros [(post & E) | (pre & post & E)].
      * exists "", post; exact E.
      * exists (String a pre), post; rewrite E; reflexivity.
    + intros ([|b pre] & post & E).
      * left; exists post; exact E.
      * right; injection E as _ E; exists pre, post; exact E.
Qed.

(** A mesh is taken for the panel by its name exactly when the name
    contains 'Front', 'Panel' or 'Body', in this spelling. *)
Theorem looksLikePanel_by_name :
  forall c : Mesh,
    looksLikePanel c = true <->
    occursIn "Front" (mesh_name c) \/ occursIn "Panel" (mesh_name c) \/
    occursIn "Body" (mesh_name c).
Proof.
  intros c; unfold looksLikePanel.
  rewrite !orb_true_iff, !includes_occurs; tauto.
Qed.

Lemma find_first {A : Type} (p : A -> bool) (l : list A) (x : A) :
  find p l = Some x ->
  exists pre post, l = (pre ++ x :: post)%list /\
                   p x = true /\ forall y, In y pre -> p y = false.
Proof.
  induction l as [|a l IH]; simpl; [ discriminate | ].
  destruct (p a) eqn:Hpa.
  - intros E; injection E as <-; exists [], l; repeat split; auto.
    intros y [].
  - intros E; destruct (IH E) as (pre & post & -> & Hx & Hpre).
    exists (a :: pre), post; repeat split; auto.
    intros y [<- | Hy]; auto.
Qed.

(** When a scene arrives and no panel is resolved, the panel becomes the
    first mesh of the scene with a telling name, else its first mesh, and
    stays unresolved only for a scene without meshes; the mesh is taken as
    loaded.  A panel that is already resolved is kept. *)
Theorem onModelLoaded_selects_panel :
  forall (gltf : Model) (s : State),
    let s' := stateOf (onModelLoaded gltf s) in
    (frontPanelMesh s = None ->
       frontPanelMesh s' = panelOf gltf /\
       (frontPanelMesh s' = None <-> children gltf = []) /\
       (forall c, frontPanelMesh s' = Some c -> In c (children gltf)) /\
       (forall c, In c (children gltf) -> looksLikePanel c = true ->
          exists c' pre post,
            frontPanelMesh s' = Some c' /\ looksLikePanel c' = true /\
            children gltf = (pre ++ c' :: post)%list /\
            forall y, In y pre -> looksLikePanel y = false)) /\
    (forall m, frontPanelMesh s = Some m -> frontPanelMesh s' = Some m) /\
    currentModel s' = Some gltf /\
    In (ModelNode (model_id gltf)) (scene s').
Proof.
  intros gltf s s'; subst s'; unfold onModelLoaded, panelOf; simpl.
  split; [ | split; [ | split ] ].
  - intros Hm; rewrite Hm; simpl.
    destruct (find looksLikePanel (children gltf)) as [c0|] eqn:Hfind; simpl.
    + destruct (find_first _ _ _ Hfind) as (pre & post & Hl & Hc0 & Hpre).
      split; [ reflexivity | ]. split; [ | split ].
      * split; [ discriminate | ].
        intros E; rewrite E in Hl; destruct pre; discriminate Hl.
      * intros c E; injection E as <-.
        rewrite Hl; apply in_or_app; right; left; reflexivity.
      * intros _ _ _; exists c0, pre, post; auto.
    + split; [ reflexivity | ]. split; [ | split ].
      * destruct (children gltf); simpl; split; congruence.
      * intros c E; destruct (children gltf); simpl in E; [ discriminate E | ].
        injection E as <-; left; reflexivity.
      * intros c Hin Hc.
        pose proof (find_none _ _ Hfind c Hin) as Hn; congruence.
  - intros m Hm; rewrite Hm; simpl; rewrite Hm; simpl; exact Hm.
  - destruct (frontPanelMesh s) eqn:Hm; simpl; rewrite ?Hm; simpl;
      [ | destruct (find looksLikePanel (children gltf)); simpl ]; reflexivity.
  - assert (Hin : In (ModelNode (model_id gltf))
                    (sceneAdd (ModelNode (model_id gltf)) (scene s)))
      by (unfold sceneAdd; apply in_or_app; right; left; reflexivity).
    destruct (frontPanelMesh s) eqn:Hm; simpl; rewrite ?Hm; simpl;
      [ | destruct (find looksLikePanel (children gltf)); simpl ]; exact Hin.
Qed.

Lemma onModelLoaded_selects_panel_witness :
  frontPanelMesh
    (stateOf (onModelLoaded
                (mkModel 2 [mkMesh "Lid" 20 None sampleBox identity3 (fun _ _ => []) true;
                            missedPanel])
                initialState))
  = Some missedPanel.
Proof.
  destruct (onModelLoaded_selects_panel
              (mkModel 2 [mkMesh "Lid" 20 None sampleBox identity3 (fun _ _ => []) true;
                          missedPanel])
              initialState) as (H & _).
  destruct (H eq_refl) as (E & _); rewrite E; reflexivity.
Defined.

(** ** Reloading the model *)

Lemma not_in_sceneRemove o l : ~ In o (sceneRemove o l).
Proof.
  unfold sceneRemove; intros H; apply filter_In in H; destruct H as (_ & H).
  destruct o; simpl in H; rewrite Nat.eqb_refl in H; discriminate H.
Qed.

Lemma sceneRemove_subset o x l : In x (sceneRemove o l) -> In x l.
Proof. unfold sceneRemove; intros H; apply filter_In in H; tauto. Qed.

(** The teardown at the start of [loadModel]: with a model loaded, the
    model and the decal leave the scene, the geometry of every mesh of the
    model and of the decal is disposed, the model, the panel and the decal
    are forgotten, and the call returns; the mode, the finish, the active
    texture and the decal material stay.  A texture update that follows
    does nothing.  With no model loaded the call changes nothing. *)
Theorem loadModel_tears_down :
  forall (sqrt : Q -> Q) (modelKey : string) (s : State),
    (currentModel s = None -> loadModel modelKey s = Returns s) /\
    (forall cm, currentModel s = Some cm ->
       exists s', loadModel modelKey s = Returns s' /\
         currentModel s' = None /\
         frontPanelMesh s' = None /\
         decalMesh s' = None /\
         ~ In (ModelNode (model_id cm)) (scene s') /\
         (forall d, decalMesh s = Some d ->
            ~ In (DecalNode (decal_id d)) (scene s') /\
            In (OfDecal (decal_geometry_id (geometry d))) (disposedGeometries s')) /\
         (forall c, In c (children cm) ->
            In (OfMesh (geometry_id c)) (disposedGeometries s')) /\
         (forall c bm, In c (children cm) -> material c = Some bm ->
            In (material_id bm) (disposedMaterials s')) /\
         currentMode s' = currentMode s /\
         currentFinish s' = currentFinish s /\
         activeTexture s' = activeTexture s /\
         decalMaterial s' = decalMaterial s /\
         (forall c, updateTexture sqrt c s' = Returns s')).
Proof.
  intros sqrt k s; unfold loadModel; split.
  - intros ->; reflexivity.
  - intros cm ->; eexists; split; [ reflexivity | ].
    match goal with |- context [removeDecals ?x] =>
      set (s1 := x);
      pose proof (removeDecals_clears s1) as Hnone;
      pose proof (removeDecals_keeps_panel s1) as Hpan;
      destruct (removeDecals_frame s1) as (Hmo & Hfi & Hcm & Hat & Hdm & _)
    end.
    rewrite Hnone, Hpan, Hmo, Hfi, Hcm, Hat, Hdm.
    repeat (split; [ reflexivity | ]).
    assert (Hscene : forall x, In x (scene (removeDecals s1)) ->
                               In x (sceneRemove (ModelNode (model_id cm)) (scene s))).
    { intros x; unfold removeDecals; destruct (decalMesh s1); simpl; [ | trivial ].
      apply sceneRemove_subset. }
    assert (Hdisp : forall g, In g (disposedGeometries s1) ->
                              In g (disposedGeometries (removeDecals s1))).
    { intros g; unfold removeDecals; destruct (decalMesh s1); simpl; auto. }
    split; [ intros H; apply Hscene in H; revert H; apply not_in_sceneRemove | ].
    split.
    { intros d Hd; unfold removeDecals.
      replace (decalMesh s1) with (Some d) by (symmetry; exact Hd); simpl.
      split; [ apply not_in_sceneRemove | left; reflexivity ]. }
    split.
    { intros c Hin; apply Hdisp; subst s1; simpl.
      apply in_or_app; left.
      apply (in_map (fun c => OfMesh (geometry_id c))); exact Hin. }
    split.
    { intros c bm Hin Hbm.
      replace (disposedMaterials (removeDecals s1)) with (disposedMaterials s1)
        by (unfold removeDecals; destruct (decalMesh s1); reflexivity).
      subst s1; simpl; apply in_or_app; left.
      apply in_flat_map; exists c; split; [ exact Hin | ].
      rewrite Hbm; left; reflexivity. }
    repeat (split; [ reflexivity | ]).
    intros c; unfold updateTexture; rewrite Hpan; reflexivity.
Qed.

Lemma loadModel_tears_down_witness :
  exists s', loadModel "radiant" decoratedState = Returns s' /\
    frontPanelMesh s' = None /\ decalMesh s' = None /\
    activeTexture s' = activeTexture decoratedState.
Proof.
  destruct (currentModel decoratedState) as [cm|] eqn:Hcm; [ | discriminate Hcm ].
  destruct (loadModel_tears_down exactSqrt "radiant" decoratedState) as (_ & H).
  destruct (H cm Hcm)
    as (s' & Hs' & _ & Hp & Hd & _ & _ & _ & _ & _ & _ & Ht & _).
  exists s'; repeat split; assumption.
Defined.

(** ** The loading chain *)

Section LoadingChain.

Variable fetch : string -> option Model.
Variable fileName : string.

(** One step of the chain at a path that exists. *)
Lemma tryLoad_step pre path rest :
  tryLoad fetch (pre ++ path :: rest) fileName (length pre) =
  match fetch path with
  | Some gltf => mkLoadLog (Some (path, gltf)) [] []
  | None =>
      let r := tryLoad fetch (pre ++ path :: rest) fileName (S (length pre)) in
      mkLoadLog (loadedFrom r) (failedPath path :: consoleWarn r) (consoleError r)
  end.
Proof.
  rewrite tryLoad_equation.
  replace (length (pre ++ path :: rest) <=? length pre)%nat with false
    by (symmetry; apply Nat.leb_gt; rewrite length_app; simpl; lia).
  rewrite nth_middle.
  destruct (fetch path); reflexivity.
Qed.

Lemma tryLoad_past_end paths index :
  (length paths <= index)%nat ->
  tryLoad fetch paths fileName index =
  mkLoadLog None [] ["All model paths failed for: " ++ fileName].
Proof.
  intros Hle; rewrite tryLoad_equation.
  replace (length paths <=? index)%nat with true
    by (symmetry; apply Nat.leb_le; exact Hle).
  reflexivity.
Qed.

Lemma tryLoad_all_fail rest :
  forall pre,
    (forall p, In p rest -> fetch p = None) ->
    tryLoad fetch (pre ++ rest) fileName (length pre) =
    mkLoadLog None (List.map failedPath rest)
      ["All model paths failed for: " ++ fileName].
Proof.
  induction rest as [|path rest IH]; intros pre Hnone.
  - apply tryLoad_past_end; rewrite app_nil_r; lia.
  - rewrite tryLoad_step, (Hnone path) by (left; reflexivity).
    replace (pre ++ path :: rest)%list with ((pre ++ [path]) ++ rest)%list
      by (rewrite <- app_assoc; reflexivity).
    replace (S (length pre)) with (length (pre ++ [path])%list)
      by (rewrite length_app; simpl; lia).
    rewrite IH by (intros p Hp; apply Hnone; right; exact Hp).
    reflexivity.
Qed.

Lemma tryLoad_first_success failing :
  forall pre path gltf rest,
    (forall p, In p failing -> fetch p = None) ->
    fetch path = Some gltf ->
    tryLoad fetch (pre ++ failing ++ path :: rest) fileName (length pre) =
    mkLoadLog (Some (path, gltf)) (List.map failedPath failing) [].
Proof.
  induction failing as [|q failing IH]; intros pre path gltf rest Hnone Hsome.
  - simpl; rewrite tryLoad_step, Hsome; reflexivity.
  - simpl; rewrite tryLoad_step, (Hnone q) by (left; reflexivity).
    replace (pre ++ q :: failing ++ path :: rest)%list
      with ((pre ++ [q]) ++ failing ++ path :: rest)%list
      by (rewrite <- app_assoc; reflexivity).
    replace (S (length pre)) with (length (pre ++ [q])%list)
      by (rewrite length_app; simpl; lia).
    rewrite (IH _ path gltf rest) by (auto; intros p Hp; apply Hnone; right; exact Hp).
    reflexivity.
Qed.

End LoadingChain.

(** The console and the outcome of one [loadModel] call, for every key and
    every server: either some candidate path serves a scene, and then
    the scene of the first such path in the order of the array is handed
    to the success callback, with one warning for each path before it and
    no error; or none does, and then no scene is loaded, each of the three
    paths is warned about in order and the failure is reported once. *)
Theorem loadLog_outcome :
  forall (fetch : string -> option Model) (modelKey : string),
    let fileName := fileNameFor modelKey in
    let log := loadLog fetch modelKey in
    (exists failing path gltf rest,
        candidatePaths fileName = (failing ++ path :: rest)%list /\
        (forall p, In p failing -> fetch p = None) /\
        fetch path = Some gltf /\
        log = mkLoadLog (Some (path, gltf)) (List.map failedPath failing) []) \/
    ((forall p, In p (candidatePaths fileName) -> fetch p = None) /\
     log = mkLoadLog None (List.map failedPath (candidatePaths fileName))
             ["All model paths failed for: " ++ fileName]).
Proof.
  intros fetch key fileName log; subst log; unfold loadLog; fold fileName.
  set (p1 := "./public/models/" ++ fileName).
  set (p2 := "/models/" ++ fileName).
  set (p3 := "models/" ++ fileName).
  change (candidatePaths fileName) with [p1; p2; p3].
  destruct (fetch p1) as [g1|] eqn:H1.
  { left; exists [], p1, g1, [p2; p3]; repeat split; [ intros p [] | exact H1 | ].
    apply (tryLoad_first_success fetch fileName [] [] p1 g1 [p2; p3]);
      [ intros p [] | exact H1 ]. }
  destruct (fetch p2) as [g2|] eqn:H2.
  { left; exists [p1], p2, g2, [p3]; repeat split;
      [ intros p [<- | []]; exact H1 | exact H2 | ].
    apply (tryLoad_first_success fetch fileName [p1] [] p2 g2 [p3]);
      [ intros p [<- | []]; exact H1 | exact H2 ]. }
  destruct (fetch p3) as [g3|] eqn:H3.
  { left; exists [p1; p2], p3, g3, []; repeat split;
      [ intros p [<- | [<- | []]]; assumption | exact H3 | ].
    apply (tryLoad_first_success fetch fileName [p1; p2] [] p3 g3 []);
      [ intros p [<- | [<- | []]]; assumption | exact H3 ]. }
  right.
  assert (Hall : forall p, In p [p1; p2; p3] -> fetch p = None)
    by (intros p [<- | [<- | [<- | []]]]; assumption).
  split; [ exact Hall | ].
  apply (tryLoad_all_fail fetch fileName [p1; p2; p3] [] Hall).
Qed.

(** Every key other than 'radiant', known or not, asks for the Bloom
    model, and the three places looked in are the same for both models. *)
Theorem unknown_key_loads_bloom :
  forall modelKey : string,
    modelKey <> "radiant" ->
    candidatePaths (fileNameFor modelKey)
    = [ "./public/models/Bloom3D.glb"; "/models/Bloom3D.glb"; "models/Bloom3D.glb" ] /\
    forall fetch, loadLog fetch modelKey = loadLog fetch "bloom".
Proof.
  intros key Hk; unfold loadLog, fileNameFor.
  destruct (String.eqb_spec key "radiant"); [ contradiction | ].
  split; reflexivity.
Qed.

Lemma unknown_key_loads_bloom_witness :
  loadedFrom (loadLog sampleFetch "") = Some ("/models/Bloom3D.glb", mkModel 1 [missedPanel]).
Proof.
  assert (H : "" <> "radiant") by discriminate.
  rewrite (proj2 (unknown_key_loads_bloom "" H) sampleFetch).
  vm_compute; reflexivity.
Defined.

Lemma loadModel_forgets k s :
  (currentModel s = None -> frontPanelMesh s = None /\ decalMesh s = None) ->
  currentModel (stateOf (loadModel k s)) = None /\
  frontPanelMesh (stateOf (loadModel k s)) = None /\
  decalMesh (stateOf (loadModel k s)) = None.
Proof.
  intros Hnone; unfold loadModel.
  destruct (currentModel s) as [cm|] eqn:Hcm; simpl.
  - match goal with |- context [removeDecals ?x] =>
      pose proof (removeDecals_clears x) as Hd;
      pose proof (removeDecals_keeps_panel x) as Hp;
      destruct (removeDecals_frame x) as (_ & _ & Hm & _)
    end.
    rewrite Hd, Hp, Hm; repeat split.
  - destruct (Hnone eq_refl) as (Hp & Hd); auto.
Qed.

Lemma onModelLoaded_fresh gltf s :
  frontPanelMesh s = None ->
  currentModel (stateOf (onModelLoaded gltf s)) = Some gltf /\
  frontPanelMesh (stateOf (onModelLoaded gltf s)) = panelOf gltf /\
  decalMesh (stateOf (onModelLoaded gltf s)) = decalMesh s.
Proof.
  intros Hm; unfold onModelLoaded, panelOf; simpl; rewrite Hm; simpl.
  destruct (find looksLikePanel (children gltf)); simpl; repeat split.
Qed.

Lemma panelOf_member gltf c : panelOf gltf = Some c -> In c (children gltf).
Proof.
  unfold panelOf.
  destruct (find looksLikePanel (children gltf)) as [c0|] eqn:Hfind.
  - intros E; injection E as <-; apply (find_some _ _ Hfind).
  - destruct (children gltf); simpl; [ discriminate | ].
    intros E; injection E as <-; left; reflexivity.
Qed.

(** A reload that nothing interrupts, from any state the script reaches:
    when the chain finds a scene, the model is that scene and the panel
    is a mesh of it, chosen as for a first load, the panel of the previous
    model is not kept, and no decal is left; when it finds none, there is
    no model, no panel and no decal. *)
Theorem reload_targets_new_model :
  forall (sqrt : Q -> Q) (fetch : string -> option Model) (modelKey : string)
         (s : State),
    reachable sqrt s ->
    let s' := reloaded fetch modelKey s in
    decalMesh s' = None /\
    (forall path gltf,
       loadedFrom (loadLog fetch modelKey) = Some (path, gltf) ->
       currentModel s' = Some gltf /\
       frontPanelMesh s' = panelOf gltf /\
       (forall c, frontPanelMesh s' = Some c -> In c (children gltf))) /\
    (loadedFrom (loadLog fetch modelKey) = None ->
       currentModel s' = None /\ frontPanelMesh s' = None).
Proof.
  intros sqrt fetch key s Hr s'; subst s'; unfold reloaded.
  destruct (loadModel_forgets key s) as (Hcm1 & Hp1 & Hd1).
  { intros Hcm.
    pose proof (wf_model s (reachable_wellFormed sqrt s Hr) Hcm) as Hp.
    split; [ exact Hp | apply (reachable_decalNeedsPanel sqrt s Hr Hp) ]. }
  destruct (loadedFrom (loadLog fetch key)) as [[path gltf]|].
  - destruct (onModelLoaded_fresh gltf _ Hp1) as (Hmod & Hpan & Hdec).
    split; [ rewrite Hdec; exact Hd1 | split; [ | discriminate ] ].
    intros path' gltf' E; injection E as <- <-.
    split; [ exact Hmod | split; [ exact Hpan | ] ].
    intros c Hc; apply panelOf_member; rewrite <- Hpan; exact Hc.
  - split; [ exact Hd1 | split; [ discriminate | auto ] ].
Qed.

Lemma reload_targets_new_model_witness :
  frontPanelMesh (reloaded sampleFetch "bloom" decoratedState) = Some missedPanel /\
  decalMesh (reloaded sampleFetch "bloom" decoratedState) = None.
Proof.
  destruct (reload_targets_new_model exactSqrt sampleFetch "bloom" decoratedState
              decoratedState_reachable) as (Hd & Hsome & _).
  split; [ | exact Hd ].
  assert (E : loadedFrom (loadLog sampleFetch "bloom")
              = Some ("/models/Bloom3D.glb", mkModel 1 [missedPanel]))
    by (vm_compute; reflexivity).
  destruct (Hsome _ _ E) as (_ & Hp & _).
  rewrite Hp; reflexivity.
Defined.

(** ** Geometry of the placement *)

Lemma Qltb_false a b : Qltb a b = false -> b <= a.
Proof.
  unfold Qltb; intros H; apply negb_false_iff in H.
  apply Qle_bool_iff; exact H.
Qed.

Lemma nonempty_box_ordered b :
  isEmpty b = false ->
  vx (bmin b) <= vx (bmax b) /\ vy (bmin b) <= vy (bmax b) /\
  vz (bmin b) <= vz (bmax b).
Proof.
  unfold isEmpty; intros H.
  apply orb_false_iff in H; destruct H as (H & Hz).
  apply orb_false_iff in H; destruct H as (Hx & Hy).
  repeat split; apply Qltb_false; assumption.
Qed.

Lemma getSize_nonneg b :
  0 <= vx (getSize b) /\ 0 <= vy (getSize b) /\ 0 <= vz (getSize b).
Proof.
  unfold getSize; destruct (isEmpty b) eqn:He; simpl.
  - repeat split; apply Qle_refl.
  - destruct (nonempty_box_ordered b He) as (Hx & Hy & Hz).
    repeat split; unfold Qminus; rewrite <- Qle_minus_iff; assumption.
Qed.

(** Hit or miss, the decal volume is sized from the bounding box alone: it
    is never wider or taller than the box of the panel, also for an empty
    or inverted box, and always 0.2 deep. *)
Theorem decal_fits_bounding_box :
  forall (sqrt : Q -> Q) (m : Mesh),
    let size := getSize (boundingBox m) in
    let dsize := decalSize (locate sqrt m) in
    dsize = vec3 (vx size * 0.5915) (vy size * 0.845) 0.2 /\
    0 <= vx dsize <= vx size /\
    0 <= vy dsize <= vy size.
Proof.
  intros sqrt m size dsize.
  assert (E : dsize = vec3 (vx size * 0.5915) (vy size * 0.845) 0.2).
  { subst dsize size; unfold locate.
    destruct (intersections m (rayOrigin m) (rayDirection sqrt m)); reflexivity. }
  split; [ exact E | ].
  destruct (getSize_nonneg (boundingBox m)) as (Hx & Hy & _); fold size in Hx, Hy.
  rewrite E; simpl.
  assert (Hscale : forall x k, 0 <= x -> 0 <= k -> k <= 1 -> 0 <= x * k <= x).
  { intros x k H0 Hk0 Hk1; split.
    - apply Qmult_le_0_compat; assumption.
    - setoid_replace x with (x * 1) at 2 by ring.
      rewrite (Qmult_comm x k), (Qmult_comm x 1).
      apply Qmult_le_compat_r; assumption. }
  split; apply Hscale; try assumption; discriminate.
Qed.

(** For a box that is not empty the ray starts on the right face of the
    box, within its height, half a depth in front of its front face: in
    front of the box when the box has depth, and in the very plane of a
    box without depth. *)
Theorem ray_origin_on_right_front :
  forall m : Mesh,
    isEmpty (boundingBox m) = false ->
    let b := boundingBox m in
    let o := rayOrigin m in
    vx o == vx (bmax b) /\
    vy (bmin b) <= vy o <= vy (bmax b) /\
    vz o == vz (bmax b) + (vz (bmax b) - vz (bmin b)) / 2 /\
    (vz (bmin b) < vz (bmax b) -> vz (bmax b) < vz o) /\
    (vz (bmin b) == vz (bmax b) -> vz o == vz (bmax b)).
Proof.
  intros m He b o.
  destruct (nonempty_box_ordered _ He) as (Hx & Hy & Hz).
  subst o b; unfold rayOrigin, offsetCenter, getCenter, getSize.
  rewrite He; simpl.
  set (x0 := vx (bmin (boundingBox m))) in *.
  set (x1 := vx (bmax (boundingBox m))) in *.
  set (y0 := vy (bmin (boundingBox m))) in *.
  set (y1 := vy (bmax (boundingBox m))) in *.
  set (z0 := vz (bmin (boundingBox m))) in *.
  set (z1 := vz (bmax (boundingBox m))) in *.
  assert (Ez : (z0 + z1) * 0.5 + 0 + (z1 - z0) == z1 + (z1 - z0) / 2) by field.
  split; [ field | ].
  split; [ split; lra | ].
  split; [ exact Ez | ].
  split.
  - intros Hlt; lra.
  - intros Heq; lra.
Qed.

Lemma ray_origin_on_right_front_witness :
  vx (rayOrigin missedPanel) == 2 /\ 2 < vz (rayOrigin missedPanel).
Proof.
  destruct (ray_origin_on_right_front missedPanel eq_refl) as (Hx & _ & _ & Hz & _).
  split; [ exact Hx | apply Hz; reflexivity ].
Defined.

(** On a miss, for a box that is not empty, the decal is placed on the
    box itself: on the edge where its right face meets its front face. *)
Theorem fallback_position_on_box_edge :
  forall (sqrt : Q -> Q) (m : Mesh),
    isEmpty (boundingBox m) = false ->
    intersections m (rayOrigin m) (rayDirection sqrt m) = [] ->
    let b := boundingBox m in
    let p := position (locate sqrt m) in
    insideBox b p /\ vx p == vx (bmax b) /\ vz p == vz (bmax b).
Proof.
  intros sqrt m He Hmiss b p.
  destruct (nonempty_box_ordered _ He) as (Hx & Hy & Hz).
  subst p b; unfold locate; rewrite Hmiss; simpl.
  unfold insideBox, offsetCenter, getCenter, getSize; rewrite He; simpl.
  unfold Qdiv; change (/ 2) with (1 # 2).
  repeat split; lra.
Qed.

Lemma fallback_position_on_box_edge_witness :
  vx (position (locate exactSqrt missedPanel)) == 2 /\
  vz (position (locate exactSqrt missedPanel)) == 2.
Proof.
  destruct (fallback_position_on_box_edge exactSqrt missedPanel eq_refl eq_refl)
    as (_ & Hx & Hz).
  split; assumption.
Defined.

(** For an empty bounding box (a panel without geometry) centre and size
    are zero, so the ray starts at the origin with a zero direction, and
    on a miss the decal is placed at the origin with no width or height. *)
Theorem empty_box_degenerates :
  forall (sqrt : Q -> Q) (m : Mesh),
    isEmpty (boundingBox m) = true ->
    Veq (rayOrigin m) (vec3 0 0 0) /\
    Veq (rayDirection sqrt m) (vec3 0 0 0) /\
    Veq (decalSize (locate sqrt m)) (vec3 0 0 0.2) /\
    (intersections m (rayOrigin m) (rayDirection sqrt m) = [] ->
     Veq (position (locate sqrt m)) (vec3 0 0 0)).
Proof.
  intros sqrt m He.
  split; [ | split; [ | split ] ].
  - unfold rayOrigin, offsetCenter, getCenter, getSize; rewrite He; simpl.
    repeat split; simpl; ring.
  - unfold rayDirection, normalize, rayOrigin, offsetCenter, getCenter, getSize.
    rewrite He; simpl.
    repeat split; simpl; ring.
  - unfold locate.
    destruct (intersections m (rayOrigin m) (rayDirection sqrt m)); simpl;
      unfold getSize; rewrite He; simpl; repeat split; simpl; ring.
  - intros Hmiss; unfold locate; rewrite Hmiss; simpl.
    unfold offsetCenter, getCenter, getSize; rewrite He; simpl.
    repeat split; simpl; field.
Qed.

Lemma empty_box_degenerates_witness :
  Veq (rayDirection exactSqrt
         (mkMesh "Body" 30 None (mkBox (vec3 1 1 1) (vec3 0 0 0)) identity3
            (fun _ _ => []) true))
      (vec3 0 0 0).
Proof.
  exact (proj1 (proj2 (empty_box_degenerates exactSqrt
                         (mkMesh "Body" 30 None (mkBox (vec3 1 1 1) (vec3 0 0 0))
                            identity3 (fun _ _ => []) true)
                         eq_refl))).
Defined.

(** [normalize] yields a vector of length one when the square root is
    exact on the squared length of a vector that is not zero. *)
Lemma normalize_unit sqrt v :
  ~ dot v v == 0 ->
  sqrt (dot v v) * sqrt (dot v v) == dot v v ->
  dot (normalize sqrt v) (normalize sqrt v) == 1.
Proof.
  intros Hnz Hsq; unfold normalize.
  set (len := sqrt (dot v v)) in *.
  assert (Hlen : ~ len == 0).
  { intros E; apply Hnz; rewrite <- Hsq, E; ring. }
  destruct (Qeq_bool len 0) eqn:Eb; [ apply Qeq_bool_iff in Eb; contradiction | ].
  unfold dot in *; simpl.
  setoid_replace (vx v * / len * (vx v * / len) + vy v * / len * (vy v * / len)
                  + vz v * / len * (vz v * / len))
    with ((vx v * vx v + vy v * vy v + vz v * vz v) * (/ len * / len))
    by ring.
  rewrite <- Hsq; field; exact Hlen.
Qed.

(** On a hit the normal the decal looks along has length one, whenever the
    face normal is not sent to zero by the world matrix and the square
    root is exact on the two squared lengths it is applied to. *)
Theorem hit_normal_has_unit_length :
  forall (sqrt : Q -> Q) (m : Mesh) (hit : Intersection) (rest : list Intersection),
    intersections m (rayOrigin m) (rayDirection sqrt m) = hit :: rest ->
    let w := applyMatrix3 (matrixWorld m) (face_normal hit) in
    let u := normalize sqrt w in
    ~ dot w w == 0 ->
    sqrt (dot w w) * sqrt (dot w w) == dot w w ->
    sqrt (dot u u) * sqrt (dot u u) == dot u u ->
    exists n,
      orientation (locate sqrt m) = EulerLookAt (point hit) (vadd (point hit) n) /\
      dot n n == 1.
Proof.
  intros sqrt m hit rest Hhit w u Hnz Hw Hu.
  exists (normalize sqrt u); split.
  - unfold locate; rewrite Hhit; reflexivity.
  - assert (H1 : dot u u == 1) by (apply normalize_unit; assumption).
    apply normalize_unit; [ | exact Hu ].
    rewrite H1; discriminate.
Qed.

Lemma hit_normal_has_unit_length_witness :
  exists n,
    orientation (locate exactSqrt
                   (mkMesh "Panel" 31 None sampleBox identity3
                      (fun _ _ => [mkHit (vec3 1 1 2) (vec3 0 3 4)]) true))
    = EulerLookAt (vec3 1 1 2) (vadd (vec3 1 1 2) n) /\
    dot n n == 1.
Proof.
  apply (hit_normal_has_unit_length exactSqrt
           (mkMesh "Panel" 31 None sampleBox identity3
              (fun _ _ => [mkHit (vec3 1 1 2) (vec3 0 3 4)]) true)
           (mkHit (vec3 1 1 2) (vec3 0 3 4)) [] eq_refl).
  - intros H; vm_compute in H; discriminate H.
  - vm_compute; reflexivity.
  - vm_compute; reflexivity.
Defined.

(** ** Texture updates and values written *)

(** A texture update never changes the selection or the model: the mode,
    the finish, the loaded model and the panel with its material are as
    before, whether the update completed, threw or was ignored. *)
Theorem updateTexture_keeps_selection :
  forall (sqrt : Q -> Q) (c : option nat) (s : State),
    let s' := stateOf (updateTexture sqrt c s) in
    currentMode s' = currentMode s /\
    currentFinish s' = currentFinish s /\
    currentModel s' = currentModel s /\
    frontPanelMesh s' = frontPanelMesh s.
Proof.
  intros sqrt c s s'; subst s'.
  destruct (frontPanelMesh s) as [m|] eqn:Hm.
  - destruct (updateTexture_selection sqrt c s m Hm) as (H1 & H2 & H3 & H4 & _).
    auto.
  - unfold updateTexture; rewrite Hm; simpl; auto.
Qed.

(** The centring of a loaded scene moves its bounding box by
    [position - center], which puts the centre of the box on the position
    the scene had: on the origin for a scene loaded at the origin. *)
Theorem autoCenter_moves_centre_to_position :
  forall position center : Vector3,
    Veq (vadd center (vsub (autoCenter position center) position)) position /\
    (Veq position (vec3 0 0 0) ->
     Veq (vadd center (vsub (autoCenter position center) position)) (vec3 0 0 0)).
Proof.
  intros p c; unfold autoCenter, Veq; simpl.
  split; [ repeat split; ring | ].
  intros (Hx & Hy & Hz); rewrite Hx, Hy, Hz; repeat split; ring.
Qed.

Lemma autoCenter_moves_centre_to_position_witness :
  Veq (vadd (vec3 1 2 3) (vsub (autoCenter (vec3 0 0 0) (vec3 1 2 3)) (vec3 0 0 0)))
      (vec3 0 0 0).
Proof.
  apply (proj2 (autoCenter_moves_centre_to_position (vec3 0 0 0) (vec3 1 2 3))).
  repeat split; reflexivity.
Defined.

(** Whatever the mode and the stored finish, a controller run that
    completes leaves the roughness and the metalness of the decal material
    within [0, 1], and so does [setFinish] for the panel material under
    every finish of the table. *)
Theorem written_parameters_in_range :
  (forall (t : Texture) (s s' : State),
     applyMaterialMode t s = Returns s' ->
     0 <= dm_roughness (decalMaterial s') <= 1 /\
     0 <= dm_metalness (decalMaterial s') <= 1) /\
  (forall (F : string) (p : Preset),
     assoc F FINISH_PRESETS = Some p ->
     0 <= b_roughness (base p) <= 1 /\ 0 <= b_metalness (base p) <= 1 /\
     0 <= e_roughness (engraved p) <= 1 /\ 0 <= e_metalness (engraved p) <= 1).
Proof.
  assert (Htable : forall F p, assoc F FINISH_PRESETS = Some p ->
            0 <= b_roughness (base p) <= 1 /\ 0 <= b_metalness (base p) <= 1 /\
            0 <= e_roughness (engraved p) <= 1 /\ 0 <= e_metalness (engraved p) <= 1).
  { intros F p HF; apply own_presets in HF; simpl in HF.
    decompose [or] HF; subst; try contradiction; simpl;
      repeat split; discriminate. }
  split; [ | exact Htable ].
  intros t s s'; unfold applyMaterialMode.
  destruct (String.eqb (currentMode s) "engraved").
  - unfold finishPreset.
    assert (Hown : forall k e, getEngraved (getPreset k) = Some e ->
              0 <= e_roughness e <= 1 /\ 0 <= e_metalness e <= 1).
    { intros k e; unfold getPreset.
      destruct (assoc k FINISH_PRESETS) as [p|] eqn:Hk;
        [ | destruct (mem k OBJECT_PROTOTYPE); discriminate ].
      simpl; intros E; injection E as <-.
      destruct (Htable k p Hk) as (_ & _ & Hr & Hm); auto. }
    destruct (truthy (getPreset (currentFinish s)));
      match goal with |- context [getEngraved ?v] =>
        destruct (getEngraved v) as [e|] eqn:He; [ | discriminate ]
      end;
      intros E; injection E as <-; simpl; eapply Hown; exact He.
  - intros E; injection E as <-; simpl; repeat split; discriminate.
Qed.

Lemma written_parameters_in_range_witness :
  0 <= dm_roughness (decalMaterial (stateOf
         (applyMaterialMode sampleTexture rawEngravedState))) <= 1.
Proof.
  destruct written_parameters_in_range as (H & _).
  exact (proj1 (H sampleTexture rawEngravedState _ eq_refl)).
Defined.
